(** * nodeca.io: the api3 request/response correlation of [assets/js/nodeca-io.js]

    The module keeps four pieces of ambient state ([events], [bayeux],
    [connected], [api3]) and reacts to calls of its exported functions and
    to callbacks run by its environment (the Faye client, the timer queue).
    It is embedded here as explicit state passing: every function of the
    source is a function on [state] that returns the new state together
    with the effects it produced, in order. *)

From stdpp Require Import base option list strings gmap numbers pretty sorting.

Local Open Scope N_scope.

(** ** JavaScript values *)

(** Functions that the module receives from its callers.  [FNoop] is
    jQuery's [$.noop]; [FUser n] is a function supplied by the caller, known
    only by its identity [n]. *)
Inductive jsfun :=
| FNoop
| FUser (n : nat).

#[global] Instance jsfun_eq_dec : EqDecision jsfun.
Proof. solve_decision. Defined.

Set Warnings "-register-all".

(** The fragment of JavaScript values that flows through the module.
    [VErr message code] is an [Error] object carrying the extra [code]
    property that [ioerr] sets. *)
Inductive jsval :=
| VUndefined
| VNull
| VNum (n : N)
| VStr (s : string)
| VFun (f : jsfun)
| VObj (props : list (string * jsval))
| VArr (items : list jsval)
| VErr (message : string) (code : jsval).

(** [truthy v] is ToBoolean(v), as used by [||] and [!]. *)
Definition truthy (v : jsval) : bool :=
  match v with
  | VUndefined | VNull => false
  | VNum n => negb (n =? 0)
  | VStr s => negb (String.eqb s "")
  | _ => true
  end.

(** [_.isFunction] *)
Definition isFunction (v : jsval) : bool :=
  match v with
  | VFun _ => true
  | _ => false
  end.

(** Property read [o.p] on an object literal: [undefined] when absent. *)
Fixpoint get_prop (props : list (string * jsval)) (p : string) : jsval :=
  match props with
  | [] => VUndefined
  | (k, v) :: rest => if String.eqb k p then v else get_prop rest p
  end.

(** ToUint32 on the values whose conversion needs no parsing. *)
Definition to_uint32 (v : jsval) : option N :=
  match v with
  | VUndefined | VNull => Some 0
  | VNum n => Some (n mod 2 ^ 32)
  | _ => None
  end.

(** The argument list that [Function.prototype.apply (thisArg, argArray)]
    builds from [argArray] (ECMAScript 5.1, 15.3.4.3): no arguments for
    [undefined] and [null]; otherwise [argArray] is read as an array-like
    object, [ToUint32(argArray.length)] elements taken from the properties
    "0", "1", ...  An object without a [length] property therefore gives the
    empty argument list.  [None] where [apply] throws (a primitive) or the
    value is outside the fragment above. *)
Definition apply_args (argArray : jsval) : option (list jsval) :=
  match argArray with
  | VUndefined | VNull => Some []
  | VArr items => Some items
  | VObj props =>
      len ← to_uint32 (get_prop props "length");
      Some ((λ i : nat, get_prop props (pretty i)) <$> seq 0 (N.to_nat len))
  | _ => None
  end.

(** ** Messages *)

(** [data.msg] of an outbound call. *)
Record request := {
  req_version : string;
  req_method : string;
  req_params : jsval
}.

(** [data] of an outbound call: [{id: id, msg: {...}}]. *)
Record envelope := {
  env_id : N;
  env_msg : request
}.

(** [data.msg] of an inbound response. *)
Record response := {
  msg_version : string;
  msg_err : jsval;
  msg_result : jsval
}.

(** What the module does to the outside, in the order it does it. *)
Inductive effect :=
| Called (f : nat) (args : list jsval)
| Published (channel : string) (data : envelope).

(** Calling a function value.  The body of a caller's function is not part
    of the module: the call is recorded, and it is taken not to call back
    into the module before it returns. *)
Definition invoke (f : jsfun) (args : list jsval) : list effect :=
  match f with
  | FNoop => []
  | FUser n => [Called n args]
  end.

(** ** Module state *)

(** Modelled from the spec: the globals [window.REALTIME_ID] and
    [nodeca.runtime.version], which the module reads and never writes. *)
Record runtime := {
  REALTIME_ID : string;
  version : string
}.

(** One activation of [apiTree] that passed the connection check.  Its inner
    functions ([stop_timer], [handle_error], [handle_transport_down], the
    response handler, the timeout function) all close over the same
    variables; [cl_frame] is the identity of the activation, so of each of
    these function objects. *)
Record closure := {
  cl_frame : nat;
  cl_id : N;
  cl_name : string;
  cl_callback : jsfun
}.

(** Functions bound to the client's events: the two bound by [io.init] and
    the [handle_transport_down] of an activation. *)
Inductive listener :=
| TrackUp
| TrackDown
| HandleTransportDown (c : closure).

(** [listener !== list[i][0]]: function objects are compared by identity. *)
Definition same_listener (a b : listener) : bool :=
  match a, b with
  | TrackUp, TrackUp => true
  | TrackDown, TrackDown => true
  | HandleTransportDown c, HandleTransportDown d =>
      Nat.eqb (cl_frame c) (cl_frame d)
  | _, _ => false
  end.

(** The module's variables, then the state of its environment.

    Modelled from the spec: the Transport Capability (a Faye client once
    [io.init] has run) and the timer queue.  The client keeps the listeners
    of its link-up and link-down signals in binding order and the
    deliverables of publishes not yet acknowledged or rejected; the timer
    queue keeps, for each armed timer, its deadline and the function to
    run. *)
Record state := {
  events : gmap string (list jsfun);
  connected : bool;
  callbacks : gmap N closure;
  last_msg_id : N;
  timeout_var : gmap nat nat;
  next_frame : nat;
  up_listeners : list listener;
  down_listeners : list listener;
  deliverables : gmap nat closure;
  now : N;
  timers : gmap nat (N * closure)
}.

Definition set_events (f : gmap string (list jsfun) → gmap string (list jsfun))
    (st : state) : state :=
  {| events := f (events st); connected := connected st;
     callbacks := callbacks st; last_msg_id := last_msg_id st;
     timeout_var := timeout_var st; next_frame := next_frame st;
     up_listeners := up_listeners st; down_listeners := down_listeners st;
     deliverables := deliverables st; now := now st; timers := timers st |}.

Definition set_connected (b : bool) (st : state) : state :=
  {| events := events st; connected := b;
     callbacks := callbacks st; last_msg_id := last_msg_id st;
     timeout_var := timeout_var st; next_frame := next_frame st;
     up_listeners := up_listeners st; down_listeners := down_listeners st;
     deliverables := deliverables st; now := now st; timers := timers st |}.

Definition set_callbacks (f : gmap N closure → gmap N closure)
    (st : state) : state :=
  {| events := events st; connected := connected st;
     callbacks := f (callbacks st); last_msg_id := last_msg_id st;
     timeout_var := timeout_var st; next_frame := next_frame st;
     up_listeners := up_listeners st; down_listeners := down_listeners st;
     deliverables := deliverables st; now := now st; timers := timers st |}.

Definition set_last_msg_id (n : N) (st : state) : state :=
  {| events := events st; connected := connected st;
     callbacks := callbacks st; last_msg_id := n;
     timeout_var := timeout_var st; next_frame := next_frame st;
     up_listeners := up_listeners st; down_listeners := down_listeners st;
     deliverables := deliverables st; now := now st; timers := timers st |}.

Definition set_timeout_var (f : gmap nat nat → gmap nat nat)
    (st : state) : state :=
  {| events := events st; connected := connected st;
     callbacks := callbacks st; last_msg_id := last_msg_id st;
     timeout_var := f (timeout_var st); next_frame := next_frame st;
     up_listeners := up_listeners st; down_listeners := down_listeners st;
     deliverables := deliverables st; now := now st; timers := timers st |}.

Definition set_next_frame (n : nat) (st : state) : state :=
  {| events := events st; connected := connected st;
     callbacks := callbacks st; last_msg_id := last_msg_id st;
     timeout_var := timeout_var st; next_frame := n;
     up_listeners := up_listeners st; down_listeners := down_listeners st;
     deliverables := deliverables st; now := now st; timers := timers st |}.

Definition set_down_listeners (f : list listener → list listener)
    (st : state) : state :=
  {| events := events st; connected := connected st;
     callbacks := callbacks st; last_msg_id := last_msg_id st;
     timeout_var := timeout_var st; next_frame := next_frame st;
     up_listeners := up_listeners st; down_listeners := f (down_listeners st);
     deliverables := deliverables st; now := now st; timers := timers st |}.

Definition set_deliverables (f : gmap nat closure → gmap nat closure)
    (st : state) : state :=
  {| events := events st; connected := connected st;
     callbacks := callbacks st; last_msg_id := last_msg_id st;
     timeout_var := timeout_var st; next_frame := next_frame st;
     up_listeners := up_listeners st; down_listeners := down_listeners st;
     deliverables := f (deliverables st); now := now st; timers := timers st |}.

Definition set_now (t : N) (st : state) : state :=
  {| events := events st; connected := connected st;
     callbacks := callbacks st; last_msg_id := last_msg_id st;
     timeout_var := timeout_var st; next_frame := next_frame st;
     up_listeners := up_listeners st; down_listeners := down_listeners st;
     deliverables := deliverables st; now := t; timers := timers st |}.

Definition set_timers (f : gmap nat (N * closure) → gmap nat (N * closure))
    (st : state) : state :=
  {| events := events st; connected := connected st;
     callbacks := callbacks st; last_msg_id := last_msg_id st;
     timeout_var := timeout_var st; next_frame := next_frame st;
     up_listeners := up_listeners st; down_listeners := down_listeners st;
     deliverables := deliverables st; now := now st; timers := f (timers st) |}.

(** ** Errors *)

(** The properties ever assigned on the exported object [io], in source
    order. *)
Definition io_assigned : list string :=
  ["ENOCONN"; "ETIMEOUT"; "EWRONGVER"; "on"; "off"; "subscribe";
   "unsubscribe"; "publish"; "apiTree"; "auth"; "init"].

(** Property read [io.p], for a name [p] other than those of the exported
    functions: the three error constants are the only other properties the
    module assigns, and a property never assigned reads as [undefined]. *)
Definition io_get (p : string) : jsval :=
  get_prop [("ENOCONN", VStr "IO_ENOCONN");
            ("ETIMEOUT", VStr "IO_ETIMEOUT");
            ("EWRONGVER", VStr "IO_EWRONGVER")] p.

(** error constructor *)
Definition ioerr (code : jsval) (message : string) : jsval :=
  VErr message code.

(** ** Events *)

(** [events[event] || []] *)
Definition handlers_of (evs : gmap string (list jsfun)) (event : string)
    : list jsfun :=
  default [] (evs !! event).

(** executes all handlers registered for given [event]:
    [handler.apply(null, args)] for each of them, in order. *)
Fixpoint emit_each (hs : list jsfun) (args : jsval) : option (list effect) :=
  match hs with
  | [] => Some []
  | handler :: rest =>
      a ← apply_args args;
      t ← emit_each rest args;
      Some (invoke handler a ++ t)
  end.

Definition emit (st : state) (event : string) (args : jsval)
    : option (list effect) :=
  emit_each (handlers_of (events st) event) args.

(** The property names that [events], a plain object, inherits from
    [Object.prototype]: those of ECMAScript 5.1 (15.2.4) and the ones the
    browsers add.  All of them hold functions or objects, so they are truthy
    and have no [push].  The model keeps [Object.prototype] behind [events]
    throughout; an assignment to [__proto__], which would replace it, is
    outside the model. *)
Definition object_prototype : list string :=
  ["constructor"; "toString"; "toLocaleString"; "valueOf"; "hasOwnProperty";
   "isPrototypeOf"; "propertyIsEnumerable"; "__proto__"; "__defineGetter__";
   "__defineSetter__"; "__lookupGetter__"; "__lookupSetter__"].

Definition inherited (p : string) : bool :=
  bool_decide (p ∈ object_prototype).

(** [io.on].  When [events] has a list of its own for the event, the handler
    is pushed onto it.  When it has none, [events[event]] reads [undefined]
    and a new list is made, unless the name is an inherited one: then the
    value read is truthy, no list is made, and the call of its missing
    [push] throws ([None]). *)
Definition on (event : string) (handler : jsfun) (st : state) : option state :=
  match events st !! event with
  | Some hs => Some (set_events (<[event := hs ++ [handler]]>) st)
  | None =>
      if inherited event then None
      else Some (set_events (<[event := [handler]]>) st)
  end.

(** The module after a call of [io.on]: as it was when the call threw. *)
Definition after_on (event : string) (handler : jsfun) (st : state) : state :=
  default st (on event handler st).

(** [_.without(list, handler)] *)
Definition without (l : list jsfun) (handler : jsfun) : list jsfun :=
  filter (λ h, h ≠ handler) l.

(** [io.off] *)
Definition off (event : string) (handler : option jsfun) (st : state) : state :=
  set_events (λ evs,
    <[event := match handler with
               | None => []
               | Some h => without (handlers_of evs event) h
               end]> evs) st.

(** ** Timer queue and client *)

(** The value [n++] leaves in a JavaScript number that holds a count: the
    addition is exact below [2 ^ 53]; from there on, adding one gives the
    same number back. *)
Definition js_succ (n : N) : N :=
  if n <? 2 ^ 53 then n + 1 else n.

(** [setTimeout(fn, delay)] for the timeout function of activation [c]; the
    handle of the new timer is [cl_frame c]. *)
Definition setTimeout (c : closure) (delay : N) (st : state) : state :=
  set_timers (<[cl_frame c := (now st + delay, c)]>) st.

(** [clearTimeout(handle)]: no effect on a timer that has run or was
    cleared. *)
Definition clearTimeout (handle : nat) (st : state) : state :=
  set_timers (delete handle) st.

(** [bayeux.bind('transport:down', l)] *)
Definition bind_down (l : listener) (st : state) : state :=
  set_down_listeners (λ ls, ls ++ [l]) st.

(** [bayeux.unbind('transport:down', l)] *)
Definition unbind_down (l : listener) (st : state) : state :=
  set_down_listeners (filter (λ x, same_listener l x = false)) st.

(** ** apiTree *)

(** stop timer *)
Definition stop_timer (c : closure) (st : state) : state :=
  let st :=
    match timeout_var st !! cl_frame c with
    | Some handle => clearTimeout handle st
    | None => st
    end in
  set_timeout_var (delete (cl_frame c)) st.

(** simple error handler *)
Definition handle_error (c : closure) (err : jsval) (st : state)
    : state * list effect :=
  let st := stop_timer c st in
  let st := set_callbacks (delete (cl_id c)) st in
  (st, invoke (cl_callback c) [err]).

(** handle transport down during request error *)
Definition handle_transport_down (c : closure) (st : state)
    : state * list effect :=
  handle_error c (ioerr (io_get "ECONNGONE") "Server gone. (RT)") st.

(** The function stored in [api3.callbacks[id]]. *)
Definition response_handler (rt : runtime) (c : closure) (msg : response)
    (st : state) : option (state * list effect) :=
  let st := stop_timer c st in
  let st := unbind_down (HandleTransportDown c) st in
  if decide (msg_version msg ≠ version rt) then
    t ← emit st "api3:version-mismatch"
           (VObj [("client", VStr (version rt));
                  ("server", VStr (msg_version msg))]);
    Some (st, t ++ invoke (cl_callback c)
                     [ioerr (io_get "EWRONGVER")
                            "Client version does not match server."])
  else
    Some (st, invoke (cl_callback c) [msg_err msg; msg_result msg]).

(** The function given to [setTimeout]. *)
Definition timeout_fn (c : closure) (st : state) : state * list effect :=
  handle_error c
    (ioerr (io_get "ETIMEOUT") ("Timeout " +:+ cl_name c +:+ " execution.")) st.

(** The argument shuffling at the head of [apiTree]: the values of
    [options] and [callback] after the defaults are filled in. *)
Definition normalize (options : jsval) (callback : option jsfun)
    : jsval * jsfun :=
  let '(callback, options) :=
    match options with
    | VFun f => (Some f, VObj [])
    | _ => (callback, options)
    end in
  let options := if truthy options then options else VObj [] in
  let callback := default FNoop callback in
  (options, callback).

Definition req_channel (rt : runtime) : string := "/x/api3-req/" +:+ REALTIME_ID rt.
Definition res_channel (rt : runtime) : string := "/x/api3-res/" +:+ REALTIME_ID rt.

(** [io.apiTree(name, params[, options][, callback])] *)
Definition apiTree (rt : runtime) (name : string) (params options : jsval)
    (callback : option jsfun) (st : state) : state * list effect :=
  let id := last_msg_id st in
  let st := set_last_msg_id (js_succ id) st in
  let '(_, callback) := normalize options callback in
  if negb (connected st) then
    (st, invoke callback
           [ioerr (io_get "ENOCONN") "Cannot connect to server (RT)."])
  else
    let c := {| cl_frame := next_frame st; cl_id := id; cl_name := name;
                cl_callback := callback |} in
    let st := set_next_frame (S (next_frame st)) st in
    (* fill in message *)
    let data := {| env_id := id;
                   env_msg := {| req_version := version rt;
                                 req_method := name;
                                 req_params := params |} |} in
    let st := bind_down (HandleTransportDown c) st in
    (* store callback for the response *)
    let st := set_callbacks (<[id := c]>) st in
    (* timeout = setTimeout(..., 30000) *)
    let st := setTimeout c 30000 st in
    let st := set_timeout_var (<[cl_frame c := cl_frame c]>) st in
    (* send request; .fail(handle_error) and .done(stop_timer) wait on the
       deliverable *)
    let st := set_deliverables (<[cl_frame c := c]>) st in
    (st, [Published (req_channel rt) data]).

(** ** Initial state and the environment's inputs *)

(** The variables as the module's top level initialises them; there is no
    client yet. *)
Definition loaded : state :=
  {| events := ∅; connected := false; callbacks := ∅; last_msg_id := 0;
     timeout_var := ∅; next_frame := 0%nat;
     up_listeners := []; down_listeners := [];
     deliverables := ∅; now := 0; timers := ∅ |}.

(** [io.init]: a new client, with the two listeners that track the link
    bound to it.  Its subscription to the response channel is [dispatch]
    below. *)
Definition init (st : state) : state :=
  {| events := events st; connected := connected st;
     callbacks := callbacks st; last_msg_id := last_msg_id st;
     timeout_var := timeout_var st; next_frame := next_frame st;
     up_listeners := [TrackUp]; down_listeners := [TrackDown];
     deliverables := ∅; now := now st; timers := timers st |}.

(** The module once loaded and initialised. *)
Definition init_state : state := init loaded.

(** Running one bound listener. *)
Definition run_listener (l : listener) (st : state) : state * list effect :=
  match l with
  | TrackUp => (set_connected true st, [])
  | TrackDown => (set_connected false st, [])
  | HandleTransportDown c => handle_transport_down c st
  end.

(** The client signalling an event: its listeners run in binding order. *)
Fixpoint trigger (ls : list listener) (st : state) : state * list effect :=
  match ls with
  | [] => (st, [])
  | l :: rest =>
      let '(st1, t1) := run_listener l st in
      let '(st2, t2) := trigger rest st1 in
      (st2, t1 ++ t2)
  end.

(** The subscription of [io.init] to the response channel. *)
Definition dispatch (rt : runtime) (id : N) (msg : response) (st : state)
    : option (state * list effect) :=
  match callbacks st !! id with
  | None => Some (st, [])
  | Some callback =>
      let st := set_callbacks (delete id) st in
      response_handler rt callback msg st
  end.

(** What the correlation engine reacts to: calls of [io.on], [io.off] and
    [io.apiTree], the two link signals of the client, the passing of time,
    a timer running, the publish of activation [k] being acknowledged or
    rejected, and a message on the response channel. *)
Inductive input :=
| InOn (event : string) (handler : jsfun)
| InOff (event : string) (handler : option jsfun)
| InApiTree (name : string) (params options : jsval) (callback : option jsfun)
| InTransportUp
| InTransportDown
| InElapse (ms : N)
| InTimeout (handle : nat)
| InPublishDone (k : nat)
| InPublishFail (k : nat) (err : jsval)
| InMessage (id : N) (msg : response).

(** One reaction of the module.  [None] when the environment cannot deliver
    the input in this state (a timer that is not armed or not yet due, a
    deliverable already resolved) or when the evaluation throws; the latter
    does not happen, see [step_defined].  A call of [io.on] that throws does
    so to its caller and leaves the module as it was. *)
Definition step (rt : runtime) (st : state) (i : input)
    : option (state * list effect) :=
  match i with
  | InOn event handler => Some (after_on event handler st, [])
  | InOff event handler => Some (off event handler st, [])
  | InApiTree name params options callback =>
      Some (apiTree rt name params options callback st)
  | InTransportUp => Some (trigger (up_listeners st) st)
  | InTransportDown => Some (trigger (down_listeners st) st)
  | InElapse ms => Some (set_now (now st + ms) st, [])
  | InTimeout handle =>
      '(deadline, c) ← timers st !! handle;
      if deadline <=? now st
      then Some (timeout_fn c (set_timers (delete handle) st))
      else None
  | InPublishDone k =>
      c ← deliverables st !! k;
      Some (stop_timer c (set_deliverables (delete k) st), [])
  | InPublishFail k err =>
      c ← deliverables st !! k;
      Some (handle_error c err (set_deliverables (delete k) st))
  | InMessage id msg => dispatch rt id msg st
  end.

(** A sequence of inputs, with the effects of all of them in order. *)
Fixpoint run (rt : runtime) (st : state) (inputs : list input)
    : option (state * list effect) :=
  match inputs with
  | [] => Some (st, [])
  | i :: rest =>
      '(st1, t1) ← step rt st i;
      '(st2, t2) ← run rt st1 rest;
      Some (st2, t1 ++ t2)
  end.

(** ** Vocabulary of the properties *)

(** The identifiers of the requests published in a trace. *)
Definition published_ids (t : list effect) : list N :=
  omap (λ e, match e with
             | Published _ data => Some (env_id data)
             | Called _ _ => None
             end) t.

(** The number of [apiTree] calls among the inputs. *)
Fixpoint count_calls (inputs : list input) : nat :=
  match inputs with
  | [] => 0
  | InApiTree _ _ _ _ :: rest => S (count_calls rest)
  | _ :: rest => count_calls rest
  end.

(** The link signal seen last, [b] when there was none. *)
Definition last_signal (b : bool) (inputs : list input) : bool :=
  foldl (λ b i, match i with
                | InTransportUp => true
                | InTransportDown => false
                | _ => b
                end) b inputs.

(** Whether the environment can deliver input [i] in state [st]. *)
Definition enabled (st : state) (i : input) : bool :=
  match i with
  | InTimeout handle =>
      match timers st !! handle with
      | Some (deadline, _) => deadline <=? now st
      | None => false
      end
  | InPublishDone k | InPublishFail k _ => bool_decide (is_Some (deliverables st !! k))
  | _ => true
  end.

(** A listener bound by a call. *)
Definition is_call_listener (l : listener) : Prop :=
  ∃ c, l = HandleTransportDown c.

(** What [io.init] sets up and every input keeps: the link-up signal has the
    tracking listener alone, the link-down signal has the tracking listener
    first, followed by listeners of calls. *)
Definition tracked (st : state) : Prop :=
  up_listeners st = [TrackUp] ∧
  ∃ rest, down_listeners st = TrackDown :: rest ∧ Forall is_call_listener rest.

(** The timer queue, the [timeout] variables and the deliverables agree:
    a [timeout] variable holds the handle of its own activation's timer, an
    armed timer is held by its variable and belongs to a publish not yet
    acknowledged or rejected, and a deliverable is filed under the frame of
    its activation. *)
Definition timers_ok (st : state) : Prop :=
  (∀ k h, timeout_var st !! k = Some h → h = k) ∧
  (∀ k d c, timers st !! k = Some (d, c) →
            timeout_var st !! k = Some k ∧ is_Some (deliverables st !! k)) ∧
  (∀ k c, deliverables st !! k = Some c → cl_frame c = k).

(** The registry and the link-down listeners agree: a bound listener
    belongs to an activation that exists, a registry entry is filed under
    the identifier of its call, its call's listener is bound, and two
    entries are of two activations. *)
Definition entries_ok (st : state) : Prop :=
  (∀ c, HandleTransportDown c ∈ down_listeners st →
        (cl_frame c < next_frame st)%nat) ∧
  (∀ id c, callbacks st !! id = Some c →
           cl_id c = id ∧ HandleTransportDown c ∈ down_listeners st) ∧
  (∀ i j c c', callbacks st !! i = Some c → callbacks st !! j = Some c' →
               cl_frame c = cl_frame c' → i = j).

(** Nothing is filed under a frame or an identifier not yet given out. *)
Definition unused (st : state) : Prop :=
  (∀ k, (next_frame st ≤ k)%nat →
        timers st !! k = None ∧ timeout_var st !! k = None ∧
        deliverables st !! k = None) ∧
  (∀ id, last_msg_id st ≤ id → last_msg_id st < 2 ^ 53 →
         callbacks st !! id = None).

(** The error a call receives when the link goes down. *)
Definition server_gone : jsval := VErr "Server gone. (RT)" VUndefined.

(** The callbacks that a link-down signal calls: those of the bound
    listeners of calls, in binding order. *)
Definition gone_calls (ls : list listener) : list effect :=
  ls ≫= λ l, match l with
             | HandleTransportDown c => invoke (cl_callback c) [server_gone]
             | _ => []
             end.

(** The identifiers under which requests go out, read off the inputs
    alone: the calls are numbered from [n] on, and a call is sent exactly
    when the link signal seen last before it was link-up ([b] when there
    was none). *)
Fixpoint sent_ids (b : bool) (n : N) (inputs : list input) : list N :=
  match inputs with
  | [] => []
  | InApiTree _ _ _ _ :: rest =>
      (if b then [n] else []) ++ sent_ids b (n + 1) rest
  | InTransportUp :: rest => sent_ids true n rest
  | InTransportDown :: rest => sent_ids false n rest
  | _ :: rest => sent_ids b n rest
  end.

(** A client of version "A", and a caller's call of method "echo" issued
    once the link is up. *)
Definition rtA : runtime := {| REALTIME_ID := "c1"; version := "A" |}.

Definition echo_call : input :=
  InApiTree "echo" (VObj [("x", VNum 1)]) VUndefined (Some (FUser 7)).

Definition echo_closure : closure :=
  {| cl_frame := 0; cl_id := 0; cl_name := "echo"; cl_callback := FUser 7 |}.

Definition echo_published : effect :=
  Published "/x/api3-req/c1"
    {| env_id := 0;
       env_msg := {| req_version := "A"; req_method := "echo";
                     req_params := VObj [("x", VNum 1)] |} |}.

(** * Properties *)

(** ** What the inner functions leave alone *)

(** [io.on] changes the handler registry or nothing. *)
Lemma after_on_events event handler st :
  ∃ f, after_on event handler st = set_events f st.
Proof.
  unfold after_on, on.
  destruct (events st !! event) as [hs|]; [by eexists|].
  destruct (inherited event); [|by eexists].
  exists id. by destruct st.
Qed.

Lemma stop_timer_frame c st :
  events (stop_timer c st) = events st ∧
  connected (stop_timer c st) = connected st ∧
  callbacks (stop_timer c st) = callbacks st ∧
  last_msg_id (stop_timer c st) = last_msg_id st ∧
  next_frame (stop_timer c st) = next_frame st ∧
  up_listeners (stop_timer c st) = up_listeners st ∧
  down_listeners (stop_timer c st) = down_listeners st ∧
  deliverables (stop_timer c st) = deliverables st ∧
  now (stop_timer c st) = now st.
Proof.
  unfold stop_timer. destruct (timeout_var st !! cl_frame c); simpl; tauto.
Qed.

Lemma handle_error_frame c err st :
  events (handle_error c err st).1 = events st ∧
  connected (handle_error c err st).1 = connected st ∧
  last_msg_id (handle_error c err st).1 = last_msg_id st ∧
  next_frame (handle_error c err st).1 = next_frame st ∧
  up_listeners (handle_error c err st).1 = up_listeners st ∧
  down_listeners (handle_error c err st).1 = down_listeners st ∧
  deliverables (handle_error c err st).1 = deliverables st ∧
  now (handle_error c err st).1 = now st.
Proof.
  unfold handle_error. cbn -[stop_timer].
  destruct (stop_timer_frame c st) as (?&?&?&?&?&?&?&?&?). tauto.
Qed.

Lemma handle_error_effects c err st :
  (handle_error c err st).2 = invoke (cl_callback c) [err].
Proof. reflexivity. Qed.

Lemma handle_error_callbacks c err st :
  callbacks (handle_error c err st).1 = delete (cl_id c) (callbacks st).
Proof.
  unfold handle_error. cbn -[stop_timer].
  destruct (stop_timer_frame c st) as (_&_&->&_). reflexivity.
Qed.

(** The timer whose handle the [timeout] variable holds is disarmed. *)
Lemma stop_timer_timers c st k :
  timeout_var st !! cl_frame c = Some k →
  timers (stop_timer c st) = delete k (timers st).
Proof. unfold stop_timer. intros ->. reflexivity. Qed.

Lemma stop_timer_timers_sub c st k :
  timers st !! k = None → timers (stop_timer c st) !! k = None.
Proof.
  unfold stop_timer. intros H.
  destruct (timeout_var st !! cl_frame c) as [h|]; simpl; [|done].
  rewrite lookup_delete. case_decide; done.
Qed.

(** ** No connection *)

Lemma published_ids_invoke f args : published_ids (invoke f args) = [].
Proof. destruct f; reflexivity. Qed.

(** The early return of [apiTree]. *)
Lemma apiTree_not_connected rt name params options callback st :
  connected st = false →
  apiTree rt name params options callback st =
    (set_last_msg_id (js_succ (last_msg_id st)) st,
     invoke (normalize options callback).2
       [VErr "Cannot connect to server (RT)." (VStr "IO_ENOCONN")]).
Proof.
  intros Hc. unfold apiTree.
  destruct (normalize options callback) as [o cb]. simpl. rewrite Hc.
  reflexivity.
Qed.

(** C4, as stated, fails: a call issued while the flag is false still takes
    an identifier; the counter moves from 0 to 1. *)
Lemma C4_counter_advances_counterexample :
  connected init_state = false ∧
  last_msg_id (apiTree rtA "echo" VNull VUndefined (Some (FUser 7)) init_state).1
    ≠ last_msg_id init_state.
Proof. split; [reflexivity | vm_compute; discriminate]. Qed.

(** C4, amended: a call issued while the connection flag is false invokes
    the callback within the call with an ENOCONN error and changes nothing
    but the identifier counter, which advances by one: no registry entry, no
    listener, no timer and no publish. *)
Theorem C4_no_connection rt name params options callback st :
  connected st = false →
  apiTree rt name params options callback st =
    (set_last_msg_id (js_succ (last_msg_id st)) st,
     invoke (normalize options callback).2
       [VErr "Cannot connect to server (RT)." (VStr "IO_ENOCONN")]) ∧
  callbacks (apiTree rt name params options callback st).1 = callbacks st ∧
  published_ids (apiTree rt name params options callback st).2 = [].
Proof.
  intros Hc. rewrite (apiTree_not_connected _ _ _ _ _ _ Hc). cbn [fst snd].
  repeat split. apply published_ids_invoke.
Qed.

Lemma C4_no_connection_witness :
  apiTree rtA "echo" VNull VUndefined (Some (FUser 7)) init_state =
    (set_last_msg_id 1 init_state,
     [Called 7 [VErr "Cannot connect to server (RT)." (VStr "IO_ENOCONN")]]).
Proof.
  exact (proj1 (C4_no_connection rtA "echo" VNull VUndefined (Some (FUser 7))
                  init_state eq_refl)).
Defined.

(** ** Settlement through the error handler *)

(** [handle_error] clears the timer, removes the registry entry and calls
    the callback; the listeners of the link-down signal are as before. *)
Lemma handle_error_keeps_listener c err st :
  down_listeners (handle_error c err st).1 = down_listeners st.
Proof. apply handle_error_frame. Qed.

(** The response handler, for comparison, takes its listener off. *)
Lemma unbind_down_removes c st :
  HandleTransportDown c ∉ down_listeners (unbind_down (HandleTransportDown c) st).
Proof.
  unfold unbind_down. simpl. intros H.
  apply list_elem_of_filter in H as [H _].
  simpl in H. rewrite Nat.eqb_refl in H. discriminate.
Qed.

(** C2: the code at the failing inputs.  After a settlement by timeout, by
    link-down or by publish failure the call's [handle_transport_down] is
    still bound, although timer and registry entry are gone; after a
    settlement by a response it is not. *)
Theorem C2_error_paths_leave_listener_bound :
  (∃ st t,
     run rtA init_state [InTransportUp; echo_call; InElapse 30000; InTimeout 0]
       = Some (st, t) ∧
     down_listeners st = [TrackDown; HandleTransportDown echo_closure] ∧
     timers st !! 0%nat = None ∧ callbacks st !! 0 = None) ∧
  (∃ st t,
     run rtA init_state [InTransportUp; echo_call; InTransportDown]
       = Some (st, t) ∧
     down_listeners st = [TrackDown; HandleTransportDown echo_closure] ∧
     timers st !! 0%nat = None ∧ callbacks st !! 0 = None) ∧
  (∃ st t,
     run rtA init_state
       [InTransportUp; echo_call; InPublishFail 0 (VStr "rejected")]
       = Some (st, t) ∧
     down_listeners st = [TrackDown; HandleTransportDown echo_closure] ∧
     timers st !! 0%nat = None ∧ callbacks st !! 0 = None) ∧
  (∃ st t,
     run rtA init_state
       [InTransportUp; echo_call;
        InMessage 0 {| msg_version := "A"; msg_err := VNull;
                       msg_result := VObj [("x", VNum 1)] |}]
       = Some (st, t) ∧
     down_listeners st = [TrackDown] ∧
     timers st !! 0%nat = None ∧ callbacks st !! 0 = None).
Proof.
  repeat split; eexists _, _; (split; [vm_compute; reflexivity |]);
    repeat split; reflexivity.
Qed.

(** C3: the code at the failing input.  The timeout settles the call with
    ETIMEOUT; the link going down afterwards runs the listener that was left
    bound, and the same callback is called a second time. *)
Theorem C3_callback_invoked_twice :
  snd <$> run rtA init_state
            [InTransportUp; echo_call; InElapse 30000; InTimeout 0;
             InTransportDown]
  = Some [echo_published;
          Called 7 [VErr "Timeout echo execution." (VStr "IO_ETIMEOUT")];
          Called 7 [VErr "Server gone. (RT)" VUndefined]].
Proof. vm_compute. reflexivity. Qed.

(** Each later link-down calls it once more. *)
Lemma callback_invoked_on_every_link_down :
  snd <$> run rtA init_state
            [InTransportUp; echo_call; InTransportDown; InTransportUp;
             InTransportDown]
  = Some [echo_published;
          Called 7 [VErr "Server gone. (RT)" VUndefined];
          Called 7 [VErr "Server gone. (RT)" VUndefined]].
Proof. vm_compute. reflexivity. Qed.

(** ** Version mismatch *)

(** An object literal has no [length]: [apply] passes no arguments. *)
Lemma apply_args_versions client server :
  apply_args (VObj [("client", client); ("server", server)]) = Some [].
Proof. reflexivity. Qed.

Lemma emit_each_versions hs client server :
  emit_each hs (VObj [("client", client); ("server", server)])
  = Some (hs ≫= λ h, invoke h []).
Proof.
  induction hs as [|h hs IH]; [reflexivity|].
  cbn [emit_each]. rewrite apply_args_versions, IH. reflexivity.
Qed.

(** What the response handler does on a response of another version: every
    handler registered for the notification is called, with no argument,
    then the callback with the EWRONGVER error alone. *)
Lemma response_handler_mismatch rt c msg st :
  msg_version msg ≠ version rt →
  response_handler rt c msg st =
    Some (unbind_down (HandleTransportDown c) (stop_timer c st),
          (handlers_of (events st) "api3:version-mismatch" ≫= λ h, invoke h [])
          ++ invoke (cl_callback c)
               [VErr "Client version does not match server."
                  (VStr "IO_EWRONGVER")]).
Proof.
  intros Hv. unfold response_handler. rewrite decide_True by done.
  unfold emit. rewrite emit_each_versions.
  cbn -[stop_timer]. destruct (stop_timer_frame c st) as (->&_). reflexivity.
Qed.

(** C5: the code at the failing input.  A handler is registered for the
    notification, the client has version "A" and the response version "B".
    The callback gets the EWRONGVER error and no result, and the handler is
    called once, but with an empty argument list: the object with the two
    versions is given to [apply] as the argument array, not as an
    argument. *)
Theorem C5_mismatch_handler_gets_no_versions :
  snd <$> run rtA init_state
            [InOn "api3:version-mismatch" (FUser 3); InTransportUp; echo_call;
             InMessage 0 {| msg_version := "B"; msg_err := VNull;
                            msg_result := VObj [("x", VNum 1)] |}]
  = Some [echo_published;
          Called 3 [];
          Called 7 [VErr "Client version does not match server."
                      (VStr "IO_EWRONGVER")]].
Proof. vm_compute. reflexivity. Qed.

(** ** Timeout *)

(** The state a call issued while connected leaves behind. *)
Lemma apiTree_connected rt name params options callback st :
  connected st = true →
  let c := {| cl_frame := next_frame st; cl_id := last_msg_id st;
              cl_name := name; cl_callback := (normalize options callback).2 |} in
  let st1 := (apiTree rt name params options callback st).1 in
  (apiTree rt name params options callback st).2 =
    [Published (req_channel rt)
       {| env_id := last_msg_id st;
          env_msg := {| req_version := version rt; req_method := name;
                        req_params := params |} |}] ∧
  callbacks st1 = <[last_msg_id st := c]> (callbacks st) ∧
  timers st1 = <[next_frame st := (now st + 30000, c)]> (timers st) ∧
  timeout_var st1 = <[next_frame st := next_frame st]> (timeout_var st) ∧
  deliverables st1 = <[next_frame st := c]> (deliverables st) ∧
  down_listeners st1 = down_listeners st ++ [HandleTransportDown c] ∧
  now st1 = now st ∧
  last_msg_id st1 = js_succ (last_msg_id st).
Proof.
  intros Hc. unfold apiTree.
  destruct (normalize options callback) as [o cb]. simpl. rewrite Hc. simpl.
  repeat split.
Qed.

(** C1, as stated, fails: the publish is acknowledged, 30 seconds pass with
    no response, and the callback has not been called; the timer is gone
    from the queue, so that it cannot run however long the wait. *)
Lemma C1_ack_stops_timer_counterexample :
  ∃ st,
    run rtA init_state [InTransportUp; echo_call; InPublishDone 0; InElapse 30000]
      = Some (st, [echo_published]) ∧
    timers st !! 0%nat = None ∧
    ∀ ms, step rtA (set_now (now st + ms) st) (InTimeout 0) = None.
Proof.
  eexists. split; [vm_compute; reflexivity|]. split; reflexivity.
Qed.

(** C1, amended: a call issued while connected arms a timer due 30000 ms
    after issuance.  A publish acknowledgment stops this timer and settles
    nothing, so that no timeout follows it.  While the timer is armed it
    does not run before the 30000 ms are over, and when it runs then the
    callback is called once, with an ETIMEOUT error, and the registry entry
    and the timer are gone. *)
Theorem C1_timeout_unless_acknowledged rt name params options callback st :
  connected st = true →
  let k := next_frame st in
  let cb := (normalize options callback).2 in
  let st1 := (apiTree rt name params options callback st).1 in
  (∃ c, timers st1 !! k = Some (now st + 30000, c)) ∧
  (∀ ms, ms < 30000 → step rt (set_now (now st1 + ms) st1) (InTimeout k) = None) ∧
  (∀ ms, 30000 ≤ ms →
     ∃ st2, step rt (set_now (now st1 + ms) st1) (InTimeout k)
            = Some (st2, invoke cb [VErr ("Timeout " +:+ name +:+ " execution.")
                                      (VStr "IO_ETIMEOUT")]) ∧
            timers st2 !! k = None ∧
            callbacks st2 !! last_msg_id st = None) ∧
  (∃ st2, step rt st1 (InPublishDone k) = Some (st2, []) ∧
          timers st2 !! k = None ∧
          callbacks st2 = callbacks st1 ∧
          ∀ ms, step rt (set_now (now st2 + ms) st2) (InTimeout k) = None).
Proof.
  intros Hc k cb st1.
  destruct (apiTree_connected rt name params options callback st Hc)
    as (_ & Hcb & Htm & Hvar & Hdel & _ & Hnow & _).
  fold st1 cb k in Hcb, Htm, Hvar, Hdel, Hnow.
  set (c := {| cl_frame := k; cl_id := last_msg_id st; cl_name := name;
               cl_callback := cb |}) in *.
  assert (Hk : timers st1 !! k = Some (now st + 30000, c))
    by (rewrite Htm; apply lookup_insert_eq).
  repeat split.
  - eauto.
  - intros ms Hms. cbn [step timers set_now now]. rewrite Hk. cbn.
    destruct (N.leb_spec (now st + 30000) (now st1 + ms)); [lia | done].
  - intros ms Hms. cbn [step timers set_now now]. rewrite Hk. cbn -[timeout_fn].
    destruct (N.leb_spec (now st + 30000) (now st1 + ms)); [|lia].
    eexists. split; [reflexivity|]. split.
    + unfold timeout_fn, handle_error. cbn -[stop_timer].
      apply stop_timer_timers_sub. cbn. apply lookup_delete_eq.
    + cbn -[stop_timer]. apply lookup_delete_eq.
  - cbn [step]. rewrite Hdel, lookup_insert_eq. cbn -[stop_timer].
    eexists. split; [reflexivity|].
    assert (Hgone : timers (stop_timer c (set_deliverables (delete k) st1)) !! k
                    = None).
    { erewrite stop_timer_timers; [apply lookup_delete_eq|].
      cbn. rewrite Hvar. apply lookup_insert_eq. }
    split; [exact Hgone|]. split.
    + destruct (stop_timer_frame c (set_deliverables (delete k) st1))
        as (_&_&->&_). reflexivity.
    + intros ms. cbn [step timers set_now]. rewrite Hgone. reflexivity.
Qed.

Lemma C1_timeout_unless_acknowledged_witness :
  ∃ st2, step rtA (set_now (now (run_listener TrackUp init_state).1 + 30000)
                     (apiTree rtA "echo" VNull VUndefined (Some (FUser 7))
                        (run_listener TrackUp init_state).1).1)
              (InTimeout 0)
         = Some (st2, [Called 7 [VErr "Timeout echo execution."
                                   (VStr "IO_ETIMEOUT")]]) ∧
         timers st2 !! 0%nat = None ∧ callbacks st2 !! 0 = None.
Proof.
  exact (proj1 (proj2 (proj2
    (C1_timeout_unless_acknowledged rtA "echo" VNull VUndefined (Some (FUser 7))
       (run_listener TrackUp init_state).1 eq_refl))) 30000 (N.le_refl _)).
Defined.

(** ** Response dispatch *)

(** The response handler always returns, and leaves the registry alone. *)
Lemma response_handler_total rt c msg st :
  ∃ st' t, response_handler rt c msg st = Some (st', t) ∧
           callbacks st' = callbacks st.
Proof.
  assert (Hcb : callbacks (unbind_down (HandleTransportDown c) (stop_timer c st))
                = callbacks st).
  { cbn -[stop_timer]. apply stop_timer_frame. }
  destruct (decide (msg_version msg = version rt)) as [Hv|Hv].
  - unfold response_handler. rewrite decide_False by (intros ?; done).
    eexists _, _. split; [reflexivity | exact Hcb].
  - rewrite response_handler_mismatch by done.
    eexists _, _. split; [reflexivity | exact Hcb].
Qed.

(** C6: an inbound response whose identifier has no registry entry changes
    nothing and calls nothing.  When there is an entry, it is deleted and
    then its handler runs on the message, in the state without the entry;
    afterwards the identifier has no entry, and a further response with it
    is discarded. *)
Theorem C6_dispatch rt st id msg :
  match callbacks st !! id with
  | None => step rt st (InMessage id msg) = Some (st, [])
  | Some c =>
      ∃ st' t,
        step rt st (InMessage id msg) = Some (st', t) ∧
        response_handler rt c msg (set_callbacks (delete id) st) = Some (st', t) ∧
        callbacks st' !! id = None ∧
        ∀ msg', step rt st' (InMessage id msg') = Some (st', [])
  end.
Proof.
  destruct (callbacks st !! id) as [c|] eqn:Hl.
  - destruct (response_handler_total rt c msg (set_callbacks (delete id) st))
      as (st' & t & Hr & Hcb).
    assert (Hgone : callbacks st' !! id = None).
    { rewrite Hcb. cbn. apply lookup_delete_eq. }
    exists st', t. cbn [step]. unfold dispatch. rewrite Hl.
    repeat split; try done.
    intros msg'. rewrite Hgone. reflexivity.
  - cbn [step]. unfold dispatch. rewrite Hl. reflexivity.
Qed.

(** A response with the client's version, and the same response again. *)
Example dispatch_twice :
  snd <$> run rtA init_state
            [InTransportUp; echo_call;
             InMessage 0 {| msg_version := "A"; msg_err := VNull;
                            msg_result := VObj [("x", VNum 1)] |};
             InMessage 0 {| msg_version := "A"; msg_err := VNull;
                            msg_result := VObj [("x", VNum 1)] |}]
  = Some [echo_published; Called 7 [VNull; VObj [("x", VNum 1)]]].
Proof. vm_compute. reflexivity. Qed.

(** ** Connection gone *)

Lemma handle_transport_down_effects c st :
  (handle_transport_down c st).2 =
    invoke (cl_callback c) [VErr "Server gone. (RT)" VUndefined].
Proof. reflexivity. Qed.

(** Every listener bound when the signal is given contributes its effects. *)
Lemma trigger_runs_bound ls c st e :
  HandleTransportDown c ∈ ls →
  e ∈ invoke (cl_callback c) [VErr "Server gone. (RT)" VUndefined] →
  e ∈ (trigger ls st).2.
Proof.
  intros Hin He. revert st.
  induction ls as [|l ls IH]; intros st; [by apply not_elem_of_nil in Hin|].
  cbn [trigger].
  destruct (run_listener l st) as [st1 t1] eqn:Hl.
  destruct (trigger ls st1) as [st2 t2] eqn:Ht. cbn.
  apply elem_of_app.
  apply elem_of_cons in Hin as [<-|Hin].
  - left. cbn in Hl. rewrite <- (handle_transport_down_effects c st), Hl in He.
    exact He.
  - right. specialize (IH Hin st1). rewrite Ht in IH. exact IH.
Qed.

(** C8: when the link goes down while a call's [handle_transport_down] is
    bound, the callback receives the error "Server gone. (RT)" whose [code]
    is [undefined]: [io.ECONNGONE] is read but never assigned, unlike the
    three codes that are, all of which are strings. *)
Theorem C8_connection_gone_code_undefined rt st c f :
  HandleTransportDown c ∈ down_listeners st →
  cl_callback c = FUser f →
  (∃ st' t, step rt st InTransportDown = Some (st', t) ∧
            Called f [VErr "Server gone. (RT)" VUndefined] ∈ t) ∧
  io_get "ECONNGONE" = VUndefined ∧
  ("ECONNGONE" ∉ io_assigned) ∧
  io_get "ENOCONN" = VStr "IO_ENOCONN" ∧
  io_get "ETIMEOUT" = VStr "IO_ETIMEOUT" ∧
  io_get "EWRONGVER" = VStr "IO_EWRONGVER".
Proof.
  intros Hin Hf. split; [|repeat split; try reflexivity].
  - cbn [step]. destruct (trigger (down_listeners st) st) as [st' t] eqn:Ht.
    exists st', t. split; [reflexivity|].
    change t with (st', t).2. rewrite <- Ht.
    apply (trigger_runs_bound _ c); [exact Hin|].
    rewrite Hf. apply list_elem_of_singleton. reflexivity.
  - unfold io_assigned. intros H.
    repeat (apply elem_of_cons in H as [H|H]; [discriminate|]).
    by apply not_elem_of_nil in H.
Qed.

Lemma C8_connection_gone_code_undefined_witness :
  ∃ st' t,
    step rtA (apiTree rtA "echo" VNull VUndefined (Some (FUser 7))
                (run_listener TrackUp init_state).1).1 InTransportDown
      = Some (st', t) ∧
    Called 7 [VErr "Server gone. (RT)" VUndefined] ∈ t.
Proof.
  refine (proj1 (C8_connection_gone_code_undefined rtA
    (apiTree rtA "echo" VNull VUndefined (Some (FUser 7))
       (run_listener TrackUp init_state).1).1 echo_closure 7 _ eq_refl)).
  vm_compute. apply list_elem_of_further, list_elem_of_here.
Defined.

(** ** What one input changes *)

Lemma published_ids_app t1 t2 :
  published_ids (t1 ++ t2) = published_ids t1 ++ published_ids t2.
Proof. apply omap_app. Qed.

Lemma published_ids_emit_each hs args t :
  emit_each hs args = Some t → published_ids t = [].
Proof.
  revert t. induction hs as [|h hs IH]; intros t; cbn [emit_each].
  - intros [= <-]. reflexivity.
  - destruct (apply_args args) as [a|]; [|discriminate]. cbn.
    destruct (emit_each hs args) as [t'|]; [|discriminate]. cbn.
    intros [= <-]. rewrite published_ids_app, published_ids_invoke.
    apply IH. reflexivity.
Qed.

(** Both branches of the response handler end in the same state and
    publish nothing. *)
Lemma response_handler_result rt c msg st st' t :
  response_handler rt c msg st = Some (st', t) →
  st' = unbind_down (HandleTransportDown c) (stop_timer c st) ∧
  published_ids t = [].
Proof.
  unfold response_handler. case_decide.
  - destruct (emit _ _ _) as [t'|] eqn:He; [|discriminate]. cbn.
    intros [= <- <-]. split; [reflexivity|].
    rewrite published_ids_app, published_ids_invoke.
    apply published_ids_emit_each in He. rewrite He. reflexivity.
  - intros [= <- <-]. split; [reflexivity|]. apply published_ids_invoke.
Qed.

Lemma run_listener_frame l st :
  last_msg_id (run_listener l st).1 = last_msg_id st ∧
  up_listeners (run_listener l st).1 = up_listeners st ∧
  down_listeners (run_listener l st).1 = down_listeners st ∧
  published_ids (run_listener l st).2 = [].
Proof.
  destruct l; cbn [run_listener]; [cbn; tauto..|].
  unfold handle_transport_down.
  destruct (handle_error_frame c (ioerr (io_get "ECONNGONE") "Server gone. (RT)") st)
    as (_&_&?&_&?&?&_).
  rewrite handle_error_effects, published_ids_invoke. tauto.
Qed.

Lemma trigger_frame ls st :
  last_msg_id (trigger ls st).1 = last_msg_id st ∧
  up_listeners (trigger ls st).1 = up_listeners st ∧
  down_listeners (trigger ls st).1 = down_listeners st ∧
  published_ids (trigger ls st).2 = [].
Proof.
  revert st. induction ls as [|l ls IH]; intros st; [cbn; tauto|].
  cbn [trigger].
  destruct (run_listener_frame l st) as (H1 & H2 & H3 & H4).
  destruct (run_listener l st) as [st1 t1].
  destruct (IH st1) as (I1 & I2 & I3 & I4).
  destruct (trigger ls st1) as [st2 t2]. cbn [fst snd] in *.
  rewrite published_ids_app, H4, I4. repeat split; congruence.
Qed.

(** The identifier counter moves on [apiTree] and on nothing else, and only
    a call issued while connected publishes, under the identifier the
    counter held. *)
Lemma stop_timer_last_msg_id c st :
  last_msg_id (stop_timer c st) = last_msg_id st.
Proof. apply stop_timer_frame. Qed.

Lemma handle_error_last_msg_id c err st :
  last_msg_id (handle_error c err st).1 = last_msg_id st.
Proof. apply handle_error_frame. Qed.

Lemma some_pair {A B} (x : A * B) a b :
  Some x = Some (a, b) → a = x.1 ∧ b = x.2.
Proof. intros [= ->]. done. Qed.

Lemma step_ids rt st i st' t :
  step rt st i = Some (st', t) →
  match i with
  | InApiTree _ _ _ _ =>
      last_msg_id st' = js_succ (last_msg_id st) ∧
      published_ids t = if connected st then [last_msg_id st] else []
  | _ => last_msg_id st' = last_msg_id st ∧ published_ids t = []
  end.
Proof.
  destruct i; cbn [step].
  - intros [-> ->]%some_pair. cbn [fst snd].
    destruct (after_on_events event handler st) as [f ->]. split; reflexivity.
  - intros [-> ->]%some_pair. split; reflexivity.
  - intros [-> ->]%some_pair. destruct (connected st) eqn:Hc.
    + destruct (apiTree_connected rt name params options callback st Hc)
        as (-> & _ & _ & _ & _ & _ & _ & ->). split; reflexivity.
    + rewrite (apiTree_not_connected _ _ _ _ _ _ Hc). cbn [fst snd].
      rewrite published_ids_invoke. split; reflexivity.
  - intros [-> ->]%some_pair.
    destruct (trigger_frame (up_listeners st) st) as (?&_&_&?). split; done.
  - intros [-> ->]%some_pair.
    destruct (trigger_frame (down_listeners st) st) as (?&_&_&?). split; done.
  - intros [-> ->]%some_pair. split; reflexivity.
  - destruct (timers st !! handle) as [[d c]|]; [|discriminate].
    cbn -[timeout_fn]. destruct (d <=? now st); [|discriminate].
    intros [-> ->]%some_pair. unfold timeout_fn.
    rewrite handle_error_effects, published_ids_invoke.
    rewrite handle_error_last_msg_id. split; reflexivity.
  - destruct (deliverables st !! k) as [c|]; [|discriminate]. cbn -[stop_timer].
    intros [-> ->]%some_pair. cbn [fst snd].
    rewrite stop_timer_last_msg_id. split; reflexivity.
  - destruct (deliverables st !! k) as [c|]; [|discriminate]. cbn -[handle_error].
    intros [-> ->]%some_pair.
    rewrite handle_error_effects, published_ids_invoke.
    rewrite handle_error_last_msg_id. split; reflexivity.
  - unfold dispatch. destruct (callbacks st !! id) as [c|].
    + intros Hr. apply response_handler_result in Hr as [-> ->].
      split; [|reflexivity]. cbn -[stop_timer].
      rewrite stop_timer_last_msg_id. reflexivity.
    + intros [-> ->]%some_pair. split; reflexivity.
Qed.

(** ** Request identifiers *)

(** The call-issue path reads the connection flag and does not write it. *)
Lemma apiTree_keeps_flag rt name params options callback st :
  connected (apiTree rt name params options callback st).1 = connected st.
Proof.
  unfold apiTree. destruct (normalize options callback) as [o cb]. cbn.
  destruct (connected st) eqn:Hc; cbn; exact Hc.
Qed.

Lemma run_cons rt st i rest st' t :
  run rt st (i :: rest) = Some (st', t) →
  ∃ st1 t1 t2, step rt st i = Some (st1, t1) ∧
               run rt st1 rest = Some (st', t2) ∧ t = t1 ++ t2.
Proof.
  cbn [run]. destruct (step rt st i) as [[st1 t1]|]; [|discriminate]. cbn.
  destruct (run rt st1 rest) as [[st2 t2]|] eqn:Hr; [|discriminate]. cbn.
  intros [= <- <-]. exists st1, t1, t2. repeat split. exact Hr.
Qed.

Lemma js_succ_exact n : n < 2 ^ 53 → js_succ n = n + 1.
Proof.
  intros H. unfold js_succ. destruct (N.ltb_spec n (2 ^ 53)); [done | lia].
Qed.

Lemma strictly_sorted_NoDup (l : list N) : StronglySorted N.lt l → NoDup l.
Proof.
  induction 1 as [|a l Hs IH Hall]; constructor; [|done].
  intros Hin. rewrite Forall_forall in Hall. specialize (Hall _ Hin). lia.
Qed.

(** From any state, as long as the counter stays in the range where [++]
    counts: the counter has advanced by the number of calls, and the
    published identifiers are strictly increasing and lie between the old
    and the new counter. *)
Lemma run_ids rt inputs : ∀ st st' t,
  run rt st inputs = Some (st', t) →
  last_msg_id st + N.of_nat (count_calls inputs) ≤ 2 ^ 53 →
  last_msg_id st' = last_msg_id st + N.of_nat (count_calls inputs) ∧
  StronglySorted N.lt (published_ids t) ∧
  Forall (λ i, last_msg_id st ≤ i < last_msg_id st') (published_ids t).
Proof.
  induction inputs as [|i rest IH]; intros st st' t Hrun Hb.
  - cbn in Hrun. injection Hrun as <- <-. cbn.
    repeat split; [lia | constructor | constructor].
  - apply run_cons in Hrun as (st1 & t1 & t2 & Hs & Hr & ->).
    apply step_ids in Hs.
    assert (Hcase :
      (last_msg_id st1 = last_msg_id st + 1 ∧
       count_calls (i :: rest) = S (count_calls rest) ∧
       (published_ids t1 = [last_msg_id st] ∨ published_ids t1 = [])) ∨
      (last_msg_id st1 = last_msg_id st ∧
       count_calls (i :: rest) = count_calls rest ∧ published_ids t1 = [])).
    { destruct i; try (right; destruct Hs; by repeat split).
      left. destruct Hs as [Hl Hp]. cbn [count_calls] in Hb.
      rewrite js_succ_exact in Hl by lia.
      repeat split; [done|]. destruct (connected st); auto. }
    rewrite published_ids_app.
    destruct Hcase as [(Hl & Hc & Hp) | (Hl & Hc & Hp)]; rewrite Hc in *.
    + destruct (IH st1 st' t2 Hr) as (Hl' & Hsort & Hall); [lia|].
      assert (Hall' : Forall (λ i, last_msg_id st ≤ i < last_msg_id st')
                        (published_ids t2)).
      { eapply Forall_impl; [exact Hall|]. cbn. intros; lia. }
      split; [lia|].
      destruct Hp as [-> | ->]; cbn [app]; (split; [|try done]).
      * constructor; [done|]. eapply Forall_impl; [exact Hall|]. cbn. lia.
      * constructor; [lia | done].
      * done.
    + destruct (IH st1 st' t2 Hr) as (Hl' & Hsort & Hall); [lia|].
      rewrite Hp. cbn [app]. split; [lia|]. split; [done|].
      eapply Forall_impl; [exact Hall|]. cbn. intros; lia.
Qed.

(** [n] calls in a row while connected publish the identifiers from the
    counter on, one after the other. *)
Lemma run_calls_connected rt calls : ∀ st st' t,
  connected st = true →
  Forall (λ i, ∃ name params options callback,
            i = InApiTree name params options callback) calls →
  last_msg_id st + N.of_nat (length calls) ≤ 2 ^ 53 →
  run rt st calls = Some (st', t) →
  published_ids t = (λ k : nat, last_msg_id st + N.of_nat k) <$> seq 0 (length calls).
Proof.
  induction calls as [|i rest IH]; intros st st' t Hc Hall Hb Hrun.
  - cbn in Hrun. injection Hrun as <- <-. reflexivity.
  - apply run_cons in Hrun as (st1 & t1 & t2 & Hs & Hr & ->).
    apply Forall_cons in Hall as [(name & params & options & callback & ->) Hall].
    pose proof (step_ids _ _ _ _ _ Hs) as [Hl Hp]. rewrite Hc in Hp.
    cbn [step] in Hs. apply some_pair in Hs as [-> _].
    cbn [length] in Hb |- *. rewrite js_succ_exact in Hl by lia.
    assert (Hc1 : connected (apiTree rt name params options callback st).1 = true)
      by (by rewrite apiTree_keeps_flag).
    rewrite published_ids_app, Hp, (IH _ _ _ Hc1 Hall) by (done || lia).
    rewrite Hl. cbn [seq fmap list_fmap app]. f_equal; [f_equal; lia|].
    rewrite <- fmap_S_seq, <- list_fmap_compose.
    apply list_fmap_ext. intros _ k _. cbn. lia.
Qed.

(** C7, amended: the counter starts at 0; over any run of the module from
    its initial state of at most 2^53 calls, the range in which a JavaScript
    number counts by one, the counter equals the number of calls issued, so
    that each call takes the next number, and the identifiers sent out are
    strictly increasing, pairwise distinct and below the counter. *)
Theorem C7_identifiers rt inputs st t :
  run rt init_state inputs = Some (st, t) →
  N.of_nat (count_calls inputs) ≤ 2 ^ 53 →
  last_msg_id init_state = 0 ∧
  last_msg_id st = N.of_nat (count_calls inputs) ∧
  StronglySorted N.lt (published_ids t) ∧
  NoDup (published_ids t) ∧
  Forall (λ i, i < last_msg_id st) (published_ids t).
Proof.
  intros Hrun Hb.
  destruct (run_ids rt inputs init_state st t Hrun) as (Hl & Hs & Hall).
  { cbn. lia. }
  cbn in Hl. repeat split; try done.
  - by apply strictly_sorted_NoDup.
  - eapply Forall_impl; [exact Hall|]. cbn. intros; lia.
Qed.

Lemma C7_identifiers_witness :
  ∃ st t,
    run rtA init_state [echo_call; InTransportUp; echo_call; echo_call]
      = Some (st, t) ∧
    last_msg_id st = 3 ∧
    published_ids t = [1; 2] ∧
    StronglySorted N.lt (published_ids t).
Proof.
  eexists _, _. split; [vm_compute; reflexivity|].
  split; [reflexivity|]. split; [reflexivity|].
  refine (proj1 (proj2 (proj2
    (C7_identifiers rtA [echo_call; InTransportUp; echo_call; echo_call]
       _ _ _ _)))).
  - vm_compute. reflexivity.
  - vm_compute. discriminate.
Defined.

(** ** Connection flag *)

Lemma tracked_init : tracked init_state.
Proof. split; [reflexivity|]. exists []. split; [reflexivity | constructor]. Qed.

Lemma tracked_ext st st' :
  up_listeners st' = up_listeners st →
  down_listeners st' = down_listeners st →
  tracked st → tracked st'.
Proof. intros Hu Hd [? ?]. split; [congruence|]. rewrite Hd. done. Qed.

Lemma tracked_unbind c st :
  tracked st → tracked (unbind_down (HandleTransportDown c) st).
Proof.
  intros [Hu (rest & Hd & Hall)]. split; [exact Hu|].
  exists (filter (λ x, same_listener (HandleTransportDown c) x = false) rest).
  split.
  - cbn. rewrite Hd. rewrite filter_cons_True by reflexivity. reflexivity.
  - apply Forall_forall. intros l [_ Hl]%list_elem_of_filter.
    rewrite Forall_forall in Hall. auto.
Qed.

Lemma tracked_apiTree rt name params options callback st :
  tracked st → tracked (apiTree rt name params options callback st).1.
Proof.
  intros Ht. destruct (connected st) eqn:Hc.
  - destruct Ht as [Hu (rest & Hd & Hall)].
    destruct (apiTree_connected rt name params options callback st Hc)
      as (_ & _ & _ & _ & _ & Hd' & _).
    split.
    + unfold apiTree. destruct (normalize options callback). cbn.
      rewrite Hc. exact Hu.
    + eexists. rewrite Hd', Hd. split; [reflexivity|].
      apply Forall_app. split; [done|]. constructor; [|constructor].
      eexists. reflexivity.
  - rewrite (apiTree_not_connected _ _ _ _ _ _ Hc). exact Ht.
Qed.

(** The listeners of calls leave the flag as it is. *)
Lemma trigger_calls_flag ls : ∀ st,
  Forall is_call_listener ls → connected (trigger ls st).1 = connected st.
Proof.
  induction ls as [|l ls IH]; intros st Hall; [reflexivity|].
  apply Forall_cons in Hall as [[c ->] Hall]. cbn [trigger run_listener].
  unfold handle_transport_down.
  pose proof (handle_error_frame c
    (ioerr (io_get "ECONNGONE") "Server gone. (RT)") st) as (_ & Hc & _).
  destruct (handle_error c _ st) as [st1 t1].
  specialize (IH st1 Hall). destruct (trigger ls st1) as [st2 t2].
  cbn [fst] in *. congruence.
Qed.

(** The flag after one input: set by link-up, cleared by link-down, kept by
    everything else. *)
Lemma step_flag rt st i st' t :
  tracked st →
  step rt st i = Some (st', t) →
  tracked st' ∧
  connected st' = match i with
                  | InTransportUp => true
                  | InTransportDown => false
                  | _ => connected st
                  end.
Proof.
  intros Ht. destruct i; cbn [step].
  - intros [-> ->]%some_pair. cbn [fst].
    destruct (after_on_events event handler st) as [f ->].
    split; [exact Ht | reflexivity].
  - intros [-> ->]%some_pair. split; [exact Ht | reflexivity].
  - intros [-> ->]%some_pair. cbn [fst].
    split; [by apply tracked_apiTree | apply apiTree_keeps_flag].
  - intros [-> ->]%some_pair. destruct Ht as [Hu Hd]. rewrite Hu. cbn.
    split; [|reflexivity]. split; [exact Hu | exact Hd].
  - intros [-> ->]%some_pair. pose proof Ht as [Hu (rest & Hd & Hall)].
    destruct (trigger_frame (down_listeners st) st) as (_ & Hu' & Hd' & _).
    split; [by eapply tracked_ext|].
    rewrite Hd. cbn [trigger run_listener].
    pose proof (trigger_calls_flag rest (set_connected false st) Hall) as Hf.
    destruct (trigger rest (set_connected false st)) as [st2 t2]. exact Hf.
  - intros [-> ->]%some_pair. split; [exact Ht | reflexivity].
  - destruct (timers st !! handle) as [[d c]|]; [|discriminate].
    cbn -[timeout_fn]. destruct (d <=? now st); [|discriminate].
    intros [-> ->]%some_pair. unfold timeout_fn.
    pose proof (handle_error_frame c
      (ioerr (io_get "ETIMEOUT") ("Timeout " +:+ cl_name c +:+ " execution."))
      (set_timers (delete handle) st)) as (_ & Hc & _ & _ & Hu & Hd & _).
    split; [by eapply tracked_ext | exact Hc].
  - destruct (deliverables st !! k) as [c|]; [|discriminate]. cbn -[stop_timer].
    intros [-> ->]%some_pair. cbn [fst].
    pose proof (stop_timer_frame c (set_deliverables (delete k) st))
      as (_ & Hc & _ & _ & _ & Hu & Hd & _).
    split; [by eapply tracked_ext | exact Hc].
  - destruct (deliverables st !! k) as [c|]; [|discriminate]. cbn -[handle_error].
    intros [-> ->]%some_pair.
    pose proof (handle_error_frame c err (set_deliverables (delete k) st))
      as (_ & Hc & _ & _ & Hu & Hd & _).
    split; [by eapply tracked_ext | exact Hc].
  - unfold dispatch. destruct (callbacks st !! id) as [c|].
    + intros Hr. apply response_handler_result in Hr as [-> _].
      pose proof (stop_timer_frame c (set_callbacks (delete id) st))
        as (_ & Hc & _ & _ & _ & Hu & Hd & _).
      split; [|exact Hc].
      apply tracked_unbind. by eapply tracked_ext.
    + intros [-> ->]%some_pair. split; [exact Ht | reflexivity].
Qed.

Lemma run_flag rt inputs : ∀ st st' t,
  tracked st →
  run rt st inputs = Some (st', t) →
  tracked st' ∧ connected st' = last_signal (connected st) inputs.
Proof.
  induction inputs as [|i rest IH]; intros st st' t Ht Hrun.
  - cbn in Hrun. injection Hrun as <- <-. split; [exact Ht | reflexivity].
  - apply run_cons in Hrun as (st1 & t1 & t2 & Hs & Hr & ->).
    destruct (step_flag _ _ _ _ _ Ht Hs) as [Ht1 Hc1].
    destruct (IH _ _ _ Ht1 Hr) as [Ht' Hc'].
    split; [exact Ht'|]. rewrite Hc', Hc1. unfold last_signal. cbn [foldl].
    destruct i; reflexivity.
Qed.

(** C9: the flag starts false; after any run of the module it is what the
    last link signal made it (true for link-up, false for link-down, false
    when there was none).  In every state so reached the link-up signal
    flips the flag and does nothing else, the tracking listener of the
    link-down signal flips the flag and does nothing else, and a call leaves
    the flag as it found it. *)
Theorem C9_connection_flag rt inputs st t :
  run rt init_state inputs = Some (st, t) →
  connected init_state = false ∧
  connected st = last_signal false inputs ∧
  step rt st InTransportUp = Some (set_connected true st, []) ∧
  run_listener TrackDown st = (set_connected false st, []) ∧
  (∃ st' t', step rt st InTransportDown = Some (st', t') ∧
             connected st' = false) ∧
  ∀ name params options callback,
    connected (apiTree rt name params options callback st).1 = connected st.
Proof.
  intros Hrun.
  destruct (run_flag rt inputs _ _ _ tracked_init Hrun) as [Ht Hc].
  split; [reflexivity|]. split; [exact Hc|]. split; [|split; [reflexivity|split]].
  - cbn [step]. destruct Ht as [-> _]. reflexivity.
  - destruct (step rt st InTransportDown) as [[st' t']|] eqn:Hs; [|discriminate].
    exists st', t'. split; [reflexivity|].
    by destruct (step_flag _ _ _ _ _ Ht Hs) as [_ ->].
  - intros. apply apiTree_keeps_flag.
Qed.

Lemma C9_connection_flag_witness :
  ∃ st t,
    run rtA init_state [InTransportUp; echo_call; InTransportDown; InTransportUp]
      = Some (st, t) ∧
    connected st = true.
Proof.
  eexists _, _. split; [vm_compute; reflexivity|].
  refine (proj1 (proj2
    (C9_connection_flag rtA
       [InTransportUp; echo_call; InTransportDown; InTransportUp] _ _ _))).
  vm_compute. reflexivity.
Defined.

(** ** The module never throws *)

(** An input has a reaction exactly when the environment can deliver it. *)
Lemma step_defined rt st i :
  is_Some (step rt st i) ↔ enabled st i = true.
Proof.
  destruct i; cbn [step enabled];
    try (split; [reflexivity | intros _; by eexists]).
  - destruct (timers st !! handle) as [[d c]|]; cbn -[timeout_fn].
    + destruct (d <=? now st); split;
        try reflexivity; try discriminate; try (by intros []).
    + split; [by intros [] | discriminate].
  - destruct (deliverables st !! k) as [c|]; cbn -[stop_timer].
    + split; [reflexivity | intros _; by eexists].
    + split; [by intros [] | discriminate].
  - destruct (deliverables st !! k) as [c|]; cbn -[handle_error].
    + split; [reflexivity | intros _; by eexists].
    + split; [by intros [] | discriminate].
  - split; [reflexivity|]. intros _. unfold dispatch.
    destruct (callbacks st !! id) as [c|]; [|by eexists].
    destruct (response_handler_total rt c msg (set_callbacks (delete id) st))
      as (st' & t & -> & _). by eexists.
Qed.

(** A timer that is armed and due runs the error handler with ETIMEOUT,
    whatever else the state holds. *)
Lemma timeout_fires rt st handle deadline c :
  timers st !! handle = Some (deadline, c) →
  deadline ≤ now st →
  ∃ st', step rt st (InTimeout handle)
         = Some (st', invoke (cl_callback c)
                        [VErr ("Timeout " +:+ cl_name c +:+ " execution.")
                           (VStr "IO_ETIMEOUT")]) ∧
         timers st' !! handle = None ∧
         callbacks st' !! cl_id c = None.
Proof.
  intros Ht Hd. cbn [step]. rewrite Ht. cbn -[timeout_fn].
  destruct (N.leb_spec deadline (now st)); [|lia].
  eexists. split; [reflexivity|]. split.
  - cbn -[stop_timer]. apply stop_timer_timers_sub. cbn. apply lookup_delete_eq.
  - cbn -[stop_timer]. apply lookup_delete_eq.
Qed.

(** Past [2 ^ 53] the counter stands still. *)
Lemma js_succ_saturates : js_succ (2 ^ 53) = 2 ^ 53.
Proof. reflexivity. Qed.

(** * Further properties *)

(** ** The handler registry: [on], [off], [emit] *)

Lemma emit_items st event items :
  emit st event (VArr items)
    = Some (handlers_of (events st) event ≫= λ h, invoke h items).
Proof.
  unfold emit.
  induction (handlers_of (events st) event) as [|h hs IH]; [reflexivity|].
  cbn [emit_each apply_args]. cbn. rewrite IH. reflexivity.
Qed.

(** [emit] with an array of arguments: every handler registered for the
    event is called once, in registration order, with the items of the array
    as its arguments; for an event nobody registered for, nothing is
    called. *)
Theorem emit_array st event items :
  emit st event (VArr items)
    = Some (handlers_of (events st) event ≫= λ h, invoke h items) ∧
  (events st !! event = None → emit st event (VArr items) = Some []).
Proof.
  split; [apply emit_items|].
  unfold emit, handlers_of. intros ->. reflexivity.
Qed.


Lemma handlers_of_on event handler st st' :
  on event handler st = Some st' →
  handlers_of (events st') event = handlers_of (events st) event ++ [handler] ∧
  is_Some (events st' !! event) ∧
  ∀ event', event ≠ event' →
    handlers_of (events st') event' = handlers_of (events st) event'.
Proof.
  unfold on, handlers_of.
  destruct (events st !! event) as [hs|] eqn:He.
  - intros [= <-]. cbn. rewrite lookup_insert_eq. repeat split; [by eexists|].
    intros event' Hne. by rewrite lookup_insert_ne.
  - destruct (inherited event); [discriminate|].
    intros [= <-]. cbn. rewrite lookup_insert_eq. repeat split; [by eexists|].
    intros event' Hne. by rewrite lookup_insert_ne.
Qed.


(** For an inherited name ([toString], [constructor], ...) that has no
    handler list of its own, [on] throws and registers nothing; the module
    stays as it was.  Once [off] has given the name a list of its own, [on]
    appends to it as for any other name. *)
Theorem on_inherited_name rt st event handler :
  inherited event = true →
  events st !! event = None →
  on event handler st = None ∧
  step rt st (InOn event handler) = Some (st, []) ∧
  ∃ st', on event handler (off event None st) = Some st' ∧
         handlers_of (events st') event = [handler].
Proof.
  intros Hi He. unfold on at 1. rewrite He, Hi.
  split; [reflexivity | split].
  - cbn [step]. unfold after_on, on. rewrite He, Hi. reflexivity.
  - unfold on, off. cbn. rewrite lookup_insert_eq. eexists. split; [reflexivity|].
    unfold handlers_of. cbn. rewrite lookup_insert_eq. reflexivity.
Qed.

Lemma on_inherited_name_witness :
  on "toString" (FUser 3) init_state = None ∧
  step rtA init_state (InOn "toString" (FUser 3)) = Some (init_state, []).
Proof.
  destruct (on_inherited_name rtA init_state "toString" (FUser 3)
              eq_refl eq_refl) as (H1 & H2 & _).
  split; [exact H1 | exact H2].
Defined.

(** [off] without a handler: afterwards [emit] calls nothing for the event,
    whatever the arguments (also for an event that had no handlers), and
    the other events keep their handlers. *)
Theorem off_all st event :
  (∀ args, emit (off event None st) event args = Some []) ∧
  ∀ event' args, event ≠ event' →
    emit (off event None st) event' args = emit st event' args.
Proof.
  split.
  - intros args. unfold emit, off, handlers_of. cbn.
    rewrite lookup_insert_eq. reflexivity.
  - intros event' args Hne. unfold emit, off, handlers_of. cbn.
    rewrite lookup_insert_ne by done. reflexivity.
Qed.

Lemma handlers_of_off event handler st :
  handlers_of (events (off event (Some handler) st)) event
    = without (handlers_of (events st) event) handler.
Proof. unfold off, handlers_of. cbn. rewrite lookup_insert_eq. reflexivity. Qed.

Lemma invoke_bind_not_called (hs : list jsfun) n items args :
  FUser n ∉ hs → Called n args ∉ (hs ≫= λ h, invoke h items).
Proof.
  intros Hn Hin. apply list_elem_of_bind in Hin as (h & Hc & Hh).
  destruct h as [|m]; cbn in Hc; [by apply not_elem_of_nil in Hc|].
  apply list_elem_of_singleton in Hc. injection Hc as -> _. done.
Qed.

(** [off] with a handler removes every registration of that handler for the
    event: afterwards [emit] calls the other handlers, in the order they had,
    and never the removed one, however often it had been registered. *)
Theorem off_handler st event n items :
  emit (off event (Some (FUser n)) st) event (VArr items)
    = Some (filter (λ h, h ≠ FUser n) (handlers_of (events st) event)
            ≫= λ h, invoke h items) ∧
  ∀ t args, emit (off event (Some (FUser n)) st) event (VArr items) = Some t →
            Called n args ∉ t.
Proof.
  assert (He : emit (off event (Some (FUser n)) st) event (VArr items)
    = Some (filter (λ h, h ≠ FUser n) (handlers_of (events st) event)
            ≫= λ h, invoke h items)).
  { rewrite emit_items, handlers_of_off. reflexivity. }
  split; [exact He|].
  intros t args. rewrite He. intros [= <-].
  apply invoke_bind_not_called. intros [Hne _]%list_elem_of_filter. done.
Qed.

(** Registering a handler that was not registered for the event (the call
    of [on] returning) and taking it off again gives back the handlers the
    event had. *)
Theorem on_off_round_trip st event handler st' :
  on event handler st = Some st' →
  handler ∉ handlers_of (events st) event →
  handlers_of (events (off event (Some handler) st')) event
    = handlers_of (events st) event.
Proof.
  intros Hon Hn. rewrite handlers_of_off.
  rewrite (proj1 (handlers_of_on _ _ _ _ Hon)).
  unfold without. rewrite filter_app.
  rewrite filter_cons_False, filter_nil, app_nil_r by (intros H; by apply H).
  induction (handlers_of (events st) event) as [|h hs IH]; [reflexivity|].
  apply not_elem_of_cons in Hn as [Hne Hn].
  rewrite filter_cons_True by done. f_equal. by apply IH.
Qed.

Lemma on_off_round_trip_witness :
  handlers_of
    (events (off "api3:version-mismatch" (Some (FUser 4))
               (after_on "api3:version-mismatch" (FUser 4)
                  (after_on "api3:version-mismatch" (FUser 3) init_state))))
    "api3:version-mismatch"
  = [FUser 3].
Proof.
  refine (on_off_round_trip
            (after_on "api3:version-mismatch" (FUser 3) init_state)
            "api3:version-mismatch" (FUser 4)
            (after_on "api3:version-mismatch" (FUser 4)
               (after_on "api3:version-mismatch" (FUser 3) init_state)) _ _).
  - vm_compute. reflexivity.
  - vm_compute. intros H. apply list_elem_of_singleton in H. discriminate.
Defined.

(** ** One call, from issue to settlement *)

Lemma response_handler_match rt c msg st :
  msg_version msg = version rt →
  response_handler rt c msg st =
    Some (unbind_down (HandleTransportDown c) (stop_timer c st),
          invoke (cl_callback c) [msg_err msg; msg_result msg]).
Proof.
  intros Hv. unfold response_handler. rewrite decide_False by (intros H; done).
  reflexivity.
Qed.

Lemma run_two rt st i j st1 t1 st2 t2 :
  step rt st i = Some (st1, t1) →
  step rt st1 j = Some (st2, t2) →
  run rt st [i; j] = Some (st2, t1 ++ t2).
Proof. intros H1 H2. cbn [run]. rewrite H1. cbn. rewrite H2. cbn. by rewrite app_nil_r. Qed.

Lemma step_apiTree rt st name params options callback :
  step rt st (InApiTree name params options callback)
  = Some ((apiTree rt name params options callback st).1,
          (apiTree rt name params options callback st).2).
Proof. cbn [step]. by destruct (apiTree _ _ _ _ _ _). Qed.

Lemma call_then_response rt name params options callback st msg :
  connected st = true →
  msg_version msg = version rt →
  ∃ st',
    run rt st [InApiTree name params options callback;
               InMessage (last_msg_id st) msg]
    = Some (st',
            [Published (req_channel rt)
               {| env_id := last_msg_id st;
                  env_msg := {| req_version := version rt; req_method := name;
                                req_params := params |} |}]
            ++ invoke (normalize options callback).2
                 [msg_err msg; msg_result msg]) ∧
    callbacks st' !! last_msg_id st = None ∧
    timers st' !! next_frame st = None ∧
    ∀ c, HandleTransportDown c ∈ down_listeners st' → cl_frame c ≠ next_frame st.
Proof.
  intros Hc Hv.
  destruct (apiTree_connected rt name params options callback st Hc)
    as (Ht & Hcb & Htm & Hvar & Hdel & Hdown & Hnow & Hid).
  set (st1 := (apiTree rt name params options callback st).1) in *.
  set (c := {| cl_frame := next_frame st; cl_id := last_msg_id st;
               cl_name := name; cl_callback := (normalize options callback).2 |})
    in *.
  eexists. split; [|split; [|split]].
  - eapply run_two; [rewrite step_apiTree, Ht; reflexivity|].
    fold st1. cbn [step]. unfold dispatch.
    rewrite Hcb, lookup_insert_eq. rewrite response_handler_match by done.
    reflexivity.
  - cbn -[stop_timer]. rewrite (proj1 (proj2 (proj2 (stop_timer_frame _ _)))).
    cbn. apply lookup_delete_eq.
  - cbn -[stop_timer]. erewrite stop_timer_timers; [apply lookup_delete_eq|].
    cbn. rewrite Hvar. apply lookup_insert_eq.
  - intros c' Hin Hf. cbn -[stop_timer] in Hin.
    apply list_elem_of_filter in Hin as [Hs _]. cbn in Hs.
    rewrite Hf, Nat.eqb_refl in Hs. discriminate.
Qed.

(** A call issued while connected and answered with the client's version:
    the request is published under the identifier the counter held, and the
    response calls the callback once with the [err] and the [result] of the
    message; no version-mismatch handler is called.  Afterwards the
    identifier has no registry entry, the call's timer is not armed and its
    link-down listener is not bound. *)
Theorem response_settles rt name params options callback st msg :
  connected st = true →
  msg_version msg = version rt →
  ∃ st',
    run rt st [InApiTree name params options callback;
               InMessage (last_msg_id st) msg]
    = Some (st',
            [Published (req_channel rt)
               {| env_id := last_msg_id st;
                  env_msg := {| req_version := version rt; req_method := name;
                                req_params := params |} |}]
            ++ invoke (normalize options callback).2
                 [msg_err msg; msg_result msg]) ∧
    callbacks st' !! last_msg_id st = None ∧
    timers st' !! next_frame st = None ∧
    ∀ c, HandleTransportDown c ∈ down_listeners st' → cl_frame c ≠ next_frame st.
Proof. apply call_then_response; assumption. Qed.

Lemma response_settles_witness :
  ∃ st',
    run rtA (run_listener TrackUp init_state).1
      [echo_call;
       InMessage 0 {| msg_version := "A"; msg_err := VNull;
                      msg_result := VObj [("x", VNum 1)] |}]
    = Some (st', [echo_published; Called 7 [VNull; VObj [("x", VNum 1)]]]) ∧
    callbacks st' !! 0 = None ∧
    timers st' !! 0%nat = None ∧
    ∀ c, HandleTransportDown c ∈ down_listeners st' → cl_frame c ≠ 0%nat.
Proof.
  exact (response_settles rtA "echo" (VObj [("x", VNum 1)]) VUndefined
           (Some (FUser 7)) (run_listener TrackUp init_state).1
           {| msg_version := "A"; msg_err := VNull;
              msg_result := VObj [("x", VNum 1)] |} eq_refl eq_refl).
Defined.

(** ** Invariants of the reachable states *)

Lemma state_ext (s s' : state) :
  events s = events s' → connected s = connected s' →
  callbacks s = callbacks s' → last_msg_id s = last_msg_id s' →
  timeout_var s = timeout_var s' → next_frame s = next_frame s' →
  up_listeners s = up_listeners s' → down_listeners s = down_listeners s' →
  deliverables s = deliverables s' → now s = now s' → timers s = timers s' →
  s = s'.
Proof. destruct s, s'. cbn. intros; subst; reflexivity. Qed.

(** A property of states that the building blocks of the reactions keep is
    kept by every reaction. *)
Section Preservation.
Variable P : state → Prop.
Hypothesis P_events : ∀ s f, P s → P (set_events f s).
Hypothesis P_connected : ∀ s b, P s → P (set_connected b s).
Hypothesis P_now : ∀ s n, P s → P (set_now n s).
Hypothesis P_apiTree : ∀ rt name params options callback s,
  P s → P (apiTree rt name params options callback s).1.
Hypothesis P_handle_error : ∀ s c err, P s → P (handle_error c err s).1.
Hypothesis P_timeout : ∀ s h d c,
  P s → timers s !! h = Some (d, c) → P (set_timers (delete h) s).
Hypothesis P_done : ∀ s k c,
  P s → deliverables s !! k = Some c →
  P (stop_timer c (set_deliverables (delete k) s)).
Hypothesis P_fail : ∀ s k c err,
  P s → deliverables s !! k = Some c →
  P (handle_error c err (set_deliverables (delete k) s)).1.
Hypothesis P_response : ∀ s id c,
  P s → callbacks s !! id = Some c →
  P (unbind_down (HandleTransportDown c)
       (stop_timer c (set_callbacks (delete id) s))).

Lemma trigger_preserves ls : ∀ st, P st → P (trigger ls st).1.
Proof.
  induction ls as [|l ls IH]; intros st HP; [exact HP|].
  cbn [trigger].
  assert (H1 : P (run_listener l st).1).
  { destruct l; cbn [run_listener fst]; auto.
    unfold handle_transport_down. auto. }
  destruct (run_listener l st) as [st1 t1].
  specialize (IH st1 H1). destruct (trigger ls st1) as [st2 t2]. exact IH.
Qed.

Lemma step_preserves rt st i st' t :
  P st → step rt st i = Some (st', t) → P st'.
Proof.
  intros HP. destruct i; cbn [step].
  - intros [-> _]%some_pair. cbn [fst].
    destruct (after_on_events event handler st) as [f ->]. apply P_events, HP.
  - intros [-> _]%some_pair. apply P_events, HP.
  - intros [-> _]%some_pair. apply P_apiTree, HP.
  - intros [-> _]%some_pair. by apply trigger_preserves.
  - intros [-> _]%some_pair. by apply trigger_preserves.
  - intros [-> _]%some_pair. apply P_now, HP.
  - destruct (timers st !! handle) as [[d c]|] eqn:Ht; [|discriminate].
    cbn -[timeout_fn]. destruct (d <=? now st); [|discriminate].
    intros [-> _]%some_pair. unfold timeout_fn.
    apply P_handle_error. by eapply P_timeout.
  - destruct (deliverables st !! k) as [c|] eqn:Hd; [|discriminate].
    cbn -[stop_timer]. intros [-> _]%some_pair. by apply P_done.
  - destruct (deliverables st !! k) as [c|] eqn:Hd; [|discriminate].
    cbn -[handle_error]. intros [-> _]%some_pair. by apply P_fail.
  - unfold dispatch. destruct (callbacks st !! id) as [c|] eqn:Hl.
    + intros [-> _]%response_handler_result. by apply P_response.
    + intros [-> _]%some_pair. exact HP.
Qed.

Lemma run_preserves rt inputs : ∀ st st' t,
  P st → run rt st inputs = Some (st', t) → P st'.
Proof.
  induction inputs as [|i rest IH]; intros st st' t HP Hrun.
  - cbn in Hrun. by injection Hrun as <- _.
  - apply run_cons in Hrun as (st1 & t1 & t2 & Hs & Hr & _).
    eapply IH; [|exact Hr]. eapply step_preserves; eauto.
Qed.
End Preservation.

(** *** Timers and acknowledgments *)

Lemma stop_timer_fields c st :
  timeout_var (stop_timer c st) = delete (cl_frame c) (timeout_var st) ∧
  timers (stop_timer c st) =
    match timeout_var st !! cl_frame c with
    | Some h => delete h (timers st)
    | None => timers st
    end.
Proof. unfold stop_timer. destruct (timeout_var st !! cl_frame c); done. Qed.

Lemma timers_ok_ext s s' :
  timers s' = timers s → timeout_var s' = timeout_var s →
  deliverables s' = deliverables s → timers_ok s → timers_ok s'.
Proof. unfold timers_ok. intros -> -> ->. done. Qed.

Lemma timers_ok_init : timers_ok init_state.
Proof. repeat split; intros *; cbn; by rewrite ?lookup_empty. Qed.

Lemma timers_ok_stop_timer c st : timers_ok st → timers_ok (stop_timer c st).
Proof.
  intros (Ha & Hb & Hc).
  destruct (stop_timer_fields c st) as [Hv Ht].
  destruct (stop_timer_frame c st) as (_&_&_&_&_&_&_&Hd&_).
  unfold timers_ok. rewrite Hv, Ht, Hd.
  split; [|split; [|exact Hc]].
  - intros k h [_ H]%lookup_delete_Some. eauto.
  - intros k d c' Hk.
    assert (Hk' : timers st !! k = Some (d, c') ∧
                  (timeout_var st !! cl_frame c = None ∨ k ≠ cl_frame c)).
    { destruct (timeout_var st !! cl_frame c) as [h|] eqn:Hh; [|auto].
      apply Ha in Hh as ->. apply lookup_delete_Some in Hk as [? ?]. auto. }
    destruct Hk' as [Hk' Hne]. destruct (Hb _ _ _ Hk') as [Hvar Hdel].
    split; [|exact Hdel]. rewrite lookup_delete_ne; [exact Hvar|].
    destruct Hne as [Hn|Hn]; [|done]. intros Heq. subst k. congruence.
Qed.

Lemma timers_ok_handle_error c err st :
  timers_ok st → timers_ok (handle_error c err st).1.
Proof.
  intros H. apply (timers_ok_ext (stop_timer c st)); try reflexivity.
  by apply timers_ok_stop_timer.
Qed.

Lemma timers_ok_done st k c :
  timers_ok st → deliverables st !! k = Some c →
  timers_ok (stop_timer c (set_deliverables (delete k) st)).
Proof.
  intros (Ha & Hb & Hc) Hk. pose proof (Hc _ _ Hk) as Hf.
  destruct (stop_timer_fields c (set_deliverables (delete k) st)) as [Hv Ht].
  destruct (stop_timer_frame c (set_deliverables (delete k) st))
    as (_&_&_&_&_&_&_&Hd&_).
  unfold timers_ok. rewrite Hv, Ht, Hd, Hf. cbn.
  split; [|split].
  - intros k' h [_ H]%lookup_delete_Some. eauto.
  - intros k' d c' Hk'.
    assert (Hk'' : timers st !! k' = Some (d, c') ∧ k' ≠ k).
    { destruct (timeout_var st !! k) as [h|] eqn:Hh.
      - apply Ha in Hh as ->. apply lookup_delete_Some in Hk' as [? ?]. auto.
      - split; [done|]. intros ->. apply Hb in Hk' as [? _]. congruence. }
    destruct Hk'' as [Hk'' Hne]. destruct (Hb _ _ _ Hk'') as [Hvar Hdel].
    rewrite !lookup_delete_ne by done. done.
  - intros k' c' [_ H]%lookup_delete_Some. eauto.
Qed.

Lemma timers_ok_apiTree rt name params options callback st :
  timers_ok st → timers_ok (apiTree rt name params options callback st).1.
Proof.
  intros H. destruct (connected st) eqn:Hcn.
  - destruct H as (Ha & Hb & Hc).
    destruct (apiTree_connected rt name params options callback st Hcn)
      as (_ & _ & Htm & Hvar & Hdel & _).
    unfold timers_ok. rewrite Htm, Hvar, Hdel. split; [|split].
    + intros k h. rewrite lookup_insert. case_decide; [congruence | eauto].
    + intros k d c. rewrite !lookup_insert. case_decide; [subst; eauto | eauto].
    + intros k c. rewrite lookup_insert. case_decide; [|eauto].
      intros [= <-]. done.
  - rewrite (apiTree_not_connected _ _ _ _ _ _ Hcn). exact H.
Qed.

Lemma timers_ok_step rt st i st' t :
  timers_ok st → step rt st i = Some (st', t) → timers_ok st'.
Proof.
  apply step_preserves.
  - intros s f. by apply timers_ok_ext.
  - intros s b. by apply timers_ok_ext.
  - intros s n. by apply timers_ok_ext.
  - intros. by apply timers_ok_apiTree.
  - intros. by apply timers_ok_handle_error.
  - intros s h d c (Ha & Hb & Hc) _. split; [exact Ha | split; [|exact Hc]].
    cbn. intros k d' c' [_ H]%lookup_delete_Some. eauto.
  - intros. by apply timers_ok_done.
  - intros s k c err H Hk.
    apply (timers_ok_ext (stop_timer c (set_deliverables (delete k) s)));
      try reflexivity.
    by apply timers_ok_done.
  - intros s id c H _.
    apply (timers_ok_ext (stop_timer c (set_callbacks (delete id) s)));
      try reflexivity.
    apply timers_ok_stop_timer. by apply (timers_ok_ext s).
Qed.

Lemma timers_ok_run rt inputs st t :
  run rt init_state inputs = Some (st, t) → timers_ok st.
Proof.
  revert st t. generalize timers_ok_init. generalize init_state.
  induction inputs as [|i rest IH]; intros s Hs st t Hrun.
  - cbn in Hrun. by injection Hrun as <- _.
  - apply run_cons in Hrun as (st1 & t1 & t2 & H1 & Hr & _).
    eapply IH; [|exact Hr]. by eapply timers_ok_step.
Qed.

(** In every state the module reaches, a timer that is armed belongs to a
    call whose publish has been neither acknowledged nor rejected: when a
    timeout runs, the acknowledgment of that publish is still to come. *)
Theorem timeout_only_unacknowledged rt inputs st t handle st' t' :
  run rt init_state inputs = Some (st, t) →
  step rt st (InTimeout handle) = Some (st', t') →
  is_Some (deliverables st !! handle) ∧
  enabled st (InPublishDone handle) = true.
Proof.
  intros Hrun Hs. apply timers_ok_run in Hrun as (_ & Hb & _).
  cbn [step] in Hs.
  destruct (timers st !! handle) as [[d c]|] eqn:Ht; [|discriminate].
  destruct (Hb _ _ _ Ht) as [_ Hd].
  split; [exact Hd|]. cbn. by apply bool_decide_eq_true.
Qed.

Lemma timeout_only_unacknowledged_witness :
  ∃ st st' t t',
    run rtA init_state [InTransportUp; echo_call; InElapse 30000] = Some (st, t) ∧
    step rtA st (InTimeout 0) = Some (st', t') ∧
    is_Some (deliverables st !! 0%nat).
Proof.
  eexists _, _, _, _. split; [vm_compute; reflexivity|].
  split; [vm_compute; reflexivity|].
  refine (proj1 (timeout_only_unacknowledged rtA
    [InTransportUp; echo_call; InElapse 30000] _ _ 0 _ _ _ _));
    vm_compute; reflexivity.
Defined.

(** *** Registry entries and link-down listeners *)

Lemma apiTree_connected_rest rt name params options callback st :
  connected st = true →
  let st1 := (apiTree rt name params options callback st).1 in
  events st1 = events st ∧ connected st1 = true ∧
  next_frame st1 = S (next_frame st) ∧ up_listeners st1 = up_listeners st.
Proof.
  intros Hc. unfold apiTree.
  destruct (normalize options callback) as [o cb]. simpl. rewrite Hc. simpl.
  repeat split. exact Hc.
Qed.

Lemma entries_ok_ext s s' :
  callbacks s' = callbacks s → down_listeners s' = down_listeners s →
  next_frame s' = next_frame s → entries_ok s → entries_ok s'.
Proof. unfold entries_ok. intros -> -> ->. done. Qed.

Lemma entries_ok_init : entries_ok init_state.
Proof.
  split; [|split]; cbn.
  - intros c [H|H]%elem_of_cons; [discriminate | by apply not_elem_of_nil in H].
  - intros id c. by rewrite lookup_empty.
  - intros i j c c'. by rewrite lookup_empty.
Qed.

Lemma entries_ok_delete id st :
  entries_ok st → entries_ok (set_callbacks (delete id) st).
Proof.
  intros (He & Hf & Hg). split; [exact He | split]; cbn.
  - intros i c [_ H]%lookup_delete_Some. eauto.
  - intros i j c c' [_ Hi]%lookup_delete_Some [_ Hj]%lookup_delete_Some. eauto.
Qed.

Lemma entries_ok_handle_error c err st :
  entries_ok st → entries_ok (handle_error c err st).1.
Proof.
  intros H. unfold handle_error. cbn [fst].
  apply entries_ok_delete.
  destruct (stop_timer_frame c st) as (_&_&Hcb&_&Hn&_&Hd&_).
  by apply (entries_ok_ext st).
Qed.

Lemma entries_ok_response st id c :
  entries_ok st → callbacks st !! id = Some c →
  entries_ok (unbind_down (HandleTransportDown c)
                (stop_timer c (set_callbacks (delete id) st))).
Proof.
  intros (He & Hf & Hg) Hid.
  destruct (stop_timer_frame c (set_callbacks (delete id) st))
    as (_&_&Hcb&_&Hn&_&Hd&_).
  split; [|split]; cbn -[stop_timer]; rewrite ?Hcb, ?Hn, ?Hd; cbn.
  - intros c' [_ H]%list_elem_of_filter. eauto.
  - intros j c' [Hne Hj]%lookup_delete_Some.
    destruct (Hf _ _ Hj) as [Hi Hin]. split; [exact Hi|].
    apply list_elem_of_filter. split; [|exact Hin]. cbn.
    apply Nat.eqb_neq. intros Hfr. apply Hne. eauto.
  - intros i j c1 c2 [_ Hi]%lookup_delete_Some [_ Hj]%lookup_delete_Some. eauto.
Qed.

Lemma entries_ok_apiTree rt name params options callback st :
  entries_ok st → entries_ok (apiTree rt name params options callback st).1.
Proof.
  intros H. destruct (connected st) eqn:Hcn.
  - destruct H as (He & Hf & Hg).
    destruct (apiTree_connected rt name params options callback st Hcn)
      as (_ & Hcb & _ & _ & _ & Hdown & _).
    destruct (apiTree_connected_rest rt name params options callback st Hcn)
      as (_ & _ & Hn & _).
    assert (Hold : ∀ i c, callbacks st !! i = Some c →
                          (cl_frame c < next_frame st)%nat).
    { intros i c Hi. apply He. by apply (Hf i). }
    unfold entries_ok. rewrite Hcb, Hdown, Hn. split; [|split].
    + intros c [Hin | Heq%list_elem_of_singleton]%elem_of_app.
      * apply He in Hin. lia.
      * injection Heq as ->. cbn. lia.
    + intros i c. rewrite lookup_insert. case_decide.
      * intros [= <-]. split; [done|]. apply elem_of_app. right.
        by apply list_elem_of_singleton.
      * intros Hi. destruct (Hf _ _ Hi). split; [done|].
        apply elem_of_app. by left.
    + intros i j c c'. rewrite !lookup_insert.
      repeat case_decide; subst; try done.
      * intros [= <-] Hj Hfr. apply Hold in Hj. cbn in Hfr. lia.
      * intros Hi [= <-] Hfr. apply Hold in Hi. cbn in Hfr. lia.
      * eauto.
  - rewrite (apiTree_not_connected _ _ _ _ _ _ Hcn). exact H.
Qed.

Lemma entries_ok_step rt st i st' t :
  entries_ok st → step rt st i = Some (st', t) → entries_ok st'.
Proof.
  apply step_preserves.
  - intros s f. by apply entries_ok_ext.
  - intros s b. by apply entries_ok_ext.
  - intros s n. by apply entries_ok_ext.
  - intros. by apply entries_ok_apiTree.
  - intros. by apply entries_ok_handle_error.
  - intros s h d c H _. by apply (entries_ok_ext s).
  - intros s k c H _.
    destruct (stop_timer_frame c (set_deliverables (delete k) s))
      as (_&_&Hcb&_&Hn&_&Hd&_).
    by apply (entries_ok_ext s).
  - intros s k c err H _. apply entries_ok_handle_error.
    by apply (entries_ok_ext s).
  - intros. by apply entries_ok_response.
Qed.

Lemma entries_ok_run rt inputs st t :
  run rt init_state inputs = Some (st, t) → entries_ok st.
Proof.
  revert st t. generalize entries_ok_init. generalize init_state.
  induction inputs as [|i rest IH]; intros s Hs st t Hrun.
  - cbn in Hrun. by injection Hrun as <- _.
  - apply run_cons in Hrun as (st1 & t1 & t2 & H1 & Hr & _).
    eapply IH; [|exact Hr]. by eapply entries_ok_step.
Qed.

(** *** The link going down *)

Lemma trigger_effects ls st : (trigger ls st).2 = gone_calls ls.
Proof.
  revert st. induction ls as [|l ls IH]; intros st; [reflexivity|].
  cbn [trigger]. unfold gone_calls. rewrite bind_cons.
  fold (gone_calls ls).
  assert (H1 : (run_listener l st).2 =
               match l with
               | HandleTransportDown c => invoke (cl_callback c) [server_gone]
               | _ => []
               end) by (destruct l; reflexivity).
  destruct (run_listener l st) as [st1 t1]. specialize (IH st1).
  destruct (trigger ls st1) as [st2 t2]. cbn in *. congruence.
Qed.

(** The listeners only delete registry entries. *)
Lemma trigger_callbacks_sub ls : ∀ st id c,
  callbacks (trigger ls st).1 !! id = Some c → callbacks st !! id = Some c.
Proof.
  induction ls as [|l ls IH]; intros st id c; [done|].
  cbn [trigger].
  assert (H1 : callbacks (run_listener l st).1 !! id = Some c →
               callbacks st !! id = Some c).
  { destruct l; cbn [run_listener fst]; try done.
    unfold handle_transport_down. rewrite handle_error_callbacks.
    by intros [_ H]%lookup_delete_Some. }
  destruct (run_listener l st) as [st1 t1]. specialize (IH st1 id c).
  destruct (trigger ls st1) as [st2 t2]. cbn in *. auto.
Qed.

Lemma trigger_callbacks_gone ls : ∀ st c,
  HandleTransportDown c ∈ ls → callbacks (trigger ls st).1 !! cl_id c = None.
Proof.
  induction ls as [|l ls IH]; intros st c Hin; [by apply not_elem_of_nil in Hin|].
  cbn [trigger]. apply elem_of_cons in Hin as [<-|Hin].
  - cbn [run_listener]. unfold handle_transport_down.
    pose proof (handle_error_callbacks c
      (ioerr (io_get "ECONNGONE") "Server gone. (RT)") st) as Hcb.
    destruct (handle_error c _ st) as [st1 t1].
    pose proof (trigger_callbacks_sub ls st1 (cl_id c)) as Hsub.
    destruct (trigger ls st1) as [st2 t2]. cbn in *.
    destruct (callbacks st2 !! cl_id c) as [c'|] eqn:Hl; [|done].
    specialize (Hsub _ eq_refl). rewrite Hcb, lookup_delete_eq in Hsub. done.
  - destruct (run_listener l st) as [st1 t1]. specialize (IH st1 c Hin).
    destruct (trigger ls st1) as [st2 t2]. exact IH.
Qed.

Lemma link_down_step rt st :
  step rt st InTransportDown
  = Some ((trigger (down_listeners st) st).1, gone_calls (down_listeners st)).
Proof.
  cbn [step]. rewrite <- trigger_effects with (st := st).
  by destruct (trigger _ _).
Qed.

(** When the link goes down, the callback of every call whose listener is
    bound is called once per bound listener, in binding order, with the
    "Server gone. (RT)" error; the identifiers of these calls have no
    registry entry afterwards, so that a response that still arrives for
    one of them is discarded; the listeners themselves stay bound. *)
Theorem link_down_notifies rt st :
  ∃ st',
    step rt st InTransportDown = Some (st', gone_calls (down_listeners st)) ∧
    down_listeners st' = down_listeners st ∧
    ∀ c, HandleTransportDown c ∈ down_listeners st →
         callbacks st' !! cl_id c = None ∧
         ∀ msg, step rt st' (InMessage (cl_id c) msg) = Some (st', []).
Proof.
  exists (trigger (down_listeners st) st).1.
  split; [apply link_down_step | split; [apply trigger_frame|]].
  intros c Hin.
  pose proof (trigger_callbacks_gone _ st c Hin) as Hg.
  split; [exact Hg|]. intros msg. cbn [step]. unfold dispatch.
  rewrite Hg. reflexivity.
Qed.

(** In every state the module reaches, each pending call has its link-down
    listener bound: when the link goes down, the callback of every call
    that has a registry entry is called with the "Server gone. (RT)" error,
    the registry is empty afterwards, and the flag is false. *)
Theorem link_down_settles_all rt inputs st t :
  run rt init_state inputs = Some (st, t) →
  ∃ st',
    step rt st InTransportDown = Some (st', gone_calls (down_listeners st)) ∧
    callbacks st' = ∅ ∧
    connected st' = false ∧
    ∀ id c f, callbacks st !! id = Some c → cl_callback c = FUser f →
              Called f [server_gone] ∈ gone_calls (down_listeners st).
Proof.
  intros Hrun.
  pose proof (entries_ok_run _ _ _ _ Hrun) as (_ & Hf & _).
  destruct (run_flag rt inputs _ _ _ tracked_init Hrun) as [Htr _].
  pose proof (link_down_step rt st) as Hs.
  exists (trigger (down_listeners st) st).1.
  split; [exact Hs|]. split; [|split].
  - apply map_eq. intros id. rewrite lookup_empty.
    destruct (callbacks (trigger (down_listeners st) st).1 !! id) as [c|] eqn:Hl;
      [|done].
    pose proof (trigger_callbacks_sub _ _ _ _ Hl) as Hst.
    destruct (Hf _ _ Hst) as [<- Hin].
    rewrite (trigger_callbacks_gone _ st c Hin) in Hl. discriminate.
  - by destruct (step_flag _ _ _ _ _ Htr Hs) as [_ ->].
  - intros id c f Hid Hcb. destruct (Hf _ _ Hid) as [_ Hin].
    unfold gone_calls. apply list_elem_of_bind.
    exists (HandleTransportDown c). split; [|exact Hin].
    rewrite Hcb. by apply list_elem_of_singleton.
Qed.

Lemma link_down_settles_all_witness :
  ∃ st t st',
    run rtA init_state [InTransportUp; echo_call] = Some (st, t) ∧
    step rtA st InTransportDown = Some (st', [Called 7 [server_gone]]) ∧
    callbacks st' = ∅ ∧ connected st' = false.
Proof.
  destruct (run rtA init_state [InTransportUp; echo_call]) as [[st t]|] eqn:Hrun;
    [|vm_compute in Hrun; discriminate].
  destruct (link_down_settles_all _ _ _ _ Hrun) as (st' & Hs & Hcb & Hc & _).
  exists st, t, st'. split; [reflexivity|].
  vm_compute in Hrun. injection Hrun as <- <-.
  split; [exact Hs | split; [exact Hcb | exact Hc]].
Defined.

(** *** A call that runs its full course *)

Lemma unbind_fresh c ls :
  (∀ c', HandleTransportDown c' ∈ ls → cl_frame c' ≠ cl_frame c) →
  filter (λ x, same_listener (HandleTransportDown c) x = false)
    (ls ++ [HandleTransportDown c]) = ls.
Proof.
  intros Hfresh. rewrite filter_app.
  rewrite filter_cons_False, filter_nil, app_nil_r
    by (cbn; rewrite Nat.eqb_refl; discriminate).
  induction ls as [|l ls IH]; [reflexivity|].
  rewrite filter_cons_True.
  - f_equal. apply IH. intros c' Hin. apply Hfresh. by apply elem_of_cons; right.
  - destruct l as [| |c']; cbn; try reflexivity.
    apply Nat.eqb_neq. intros Heq. eapply Hfresh; [by apply list_elem_of_here|].
    done.
Qed.

Lemma round_trip_local rt name params options callback st msg :
  connected st = true →
  msg_version msg = version rt →
  callbacks st !! last_msg_id st = None →
  timers st !! next_frame st = None →
  timeout_var st !! next_frame st = None →
  deliverables st !! next_frame st = None →
  (∀ c, HandleTransportDown c ∈ down_listeners st → cl_frame c ≠ next_frame st) →
  run rt st [InApiTree name params options callback;
             InPublishDone (next_frame st);
             InMessage (last_msg_id st) msg]
  = Some (set_next_frame (S (next_frame st))
            (set_last_msg_id (js_succ (last_msg_id st)) st),
          [Published (req_channel rt)
             {| env_id := last_msg_id st;
                env_msg := {| req_version := version rt; req_method := name;
                              req_params := params |} |}]
          ++ invoke (normalize options callback).2
               [msg_err msg; msg_result msg]).
Proof.
  intros Hc Hv Hcb0 Htm0 Hvar0 Hdel0 Hfresh.
  destruct (apiTree_connected rt name params options callback st Hc)
    as (Ht & Hcb & Htm & Hvar & Hdel & Hdown & Hnow & Hid).
  destruct (apiTree_connected_rest rt name params options callback st Hc)
    as (Hev & Hcn & Hnf & Hup).
  set (st1 := (apiTree rt name params options callback st).1) in *.
  set (c := {| cl_frame := next_frame st; cl_id := last_msg_id st;
               cl_name := name; cl_callback := (normalize options callback).2 |})
    in *.
  assert (H2 : step rt st1 (InPublishDone (next_frame st))
               = Some (stop_timer c (set_deliverables (delete (next_frame st)) st1),
                       [])).
  { cbn [step]. rewrite Hdel, lookup_insert_eq. reflexivity. }
  destruct (stop_timer_frame c (set_deliverables (delete (next_frame st)) st1))
    as (Hev2 & Hcn2 & Hcb2 & Hid2 & Hnf2 & Hup2 & Hdown2 & Hdel2 & Hnow2).
  destruct (stop_timer_fields c (set_deliverables (delete (next_frame st)) st1))
    as [Hvar2 Htm2].
  cbn -[stop_timer] in Hev2, Hcn2, Hcb2, Hid2, Hnf2, Hup2, Hdown2, Hdel2, Hnow2,
    Hvar2, Htm2.
  rewrite Hvar, lookup_insert_eq in Htm2.
  remember (stop_timer c (set_deliverables (delete (next_frame st)) st1)) as st2
    eqn:E2.
  clear E2.
  assert (H3 : step rt st2 (InMessage (last_msg_id st) msg)
               = Some (unbind_down (HandleTransportDown c)
                         (stop_timer c
                            (set_callbacks (delete (last_msg_id st)) st2)),
                       invoke (cl_callback c) [msg_err msg; msg_result msg])).
  { cbn [step]. unfold dispatch. rewrite Hcb2, Hcb, lookup_insert_eq.
    by rewrite response_handler_match. }
  destruct (stop_timer_frame c (set_callbacks (delete (last_msg_id st)) st2))
    as (Hev3 & Hcn3 & Hcb3 & Hid3 & Hnf3 & Hup3 & Hdown3 & Hdel3 & Hnow3).
  destruct (stop_timer_fields c (set_callbacks (delete (last_msg_id st)) st2))
    as [Hvar3 Htm3].
  cbn -[stop_timer] in Hev3, Hcn3, Hcb3, Hid3, Hnf3, Hup3, Hdown3, Hdel3, Hnow3,
    Hvar3, Htm3.
  rewrite Hvar2, lookup_delete_eq in Htm3.
  remember (stop_timer c (set_callbacks (delete (last_msg_id st)) st2)) as st3
    eqn:E3.
  clear E3.
  assert (Hst : unbind_down (HandleTransportDown c) st3
                = set_next_frame (S (next_frame st))
                    (set_last_msg_id (js_succ (last_msg_id st)) st)).
  { apply state_ext; cbn -[same_listener].
    - congruence.
    - congruence.
    - rewrite Hcb3, Hcb2, Hcb. by apply delete_insert_id.
    - congruence.
    - rewrite Hvar3, Hvar2, Hvar.
      rewrite delete_insert_id by done. by apply delete_id.
    - congruence.
    - congruence.
    - rewrite Hdown3, Hdown2, Hdown. apply unbind_fresh. exact Hfresh.
    - rewrite Hdel3, Hdel2, Hdel. by apply delete_insert_id.
    - congruence.
    - rewrite Htm3, Htm2, Htm. by apply delete_insert_id. }
  rewrite <- Hst. cbn [run].
  rewrite step_apiTree. fold st1. rewrite Ht. cbn [mbind option_bind].
  rewrite H2. cbn [mbind option_bind]. rewrite H3. cbn -[invoke].
  by rewrite app_nil_r.
Qed.

Lemma unused_shrink s s' :
  next_frame s' = next_frame s → last_msg_id s' = last_msg_id s →
  (∀ k, timers s !! k = None → timers s' !! k = None) →
  (∀ k, timeout_var s !! k = None → timeout_var s' !! k = None) →
  (∀ k, deliverables s !! k = None → deliverables s' !! k = None) →
  (∀ id, callbacks s !! id = None → callbacks s' !! id = None) →
  unused s → unused s'.
Proof.
  intros Hn Hl Ht Hv Hd Hc [Hf Hi]. split.
  - intros k Hk. rewrite Hn in Hk. destruct (Hf k Hk) as (?&?&?). auto.
  - intros id. rewrite Hl. auto.
Qed.

Lemma unused_init : unused init_state.
Proof. split; intros; cbn; by rewrite ?lookup_empty. Qed.

Lemma delete_None `{FinMap K M} {A} (m : M A) i j :
  m !! j = None → delete i m !! j = None.
Proof. intros Hj. apply lookup_delete_None. by right. Qed.

Lemma unused_stop_timer c st : unused st → unused (stop_timer c st).
Proof.
  destruct (stop_timer_frame c st) as (_&_&Hcb&Hl&Hn&_&_&Hd&_).
  destruct (stop_timer_fields c st) as [Hv _].
  apply unused_shrink; rewrite ?Hcb, ?Hd, ?Hv; try done.
  - intros k. apply stop_timer_timers_sub.
  - intros k. apply delete_None.
Qed.

Lemma unused_handle_error c err st :
  unused st → unused (handle_error c err st).1.
Proof.
  intros H. apply (unused_shrink (stop_timer c st)); try done.
  - intros id. cbn -[stop_timer]. apply delete_None.
  - by apply unused_stop_timer.
Qed.

Lemma unused_apiTree rt name params options callback st :
  unused st → unused (apiTree rt name params options callback st).1.
Proof.
  intros [Hf Hi]. destruct (connected st) eqn:Hcn.
  - destruct (apiTree_connected rt name params options callback st Hcn)
      as (_ & Hcb & Htm & Hvar & Hdel & _ & _ & Hid).
    destruct (apiTree_connected_rest rt name params options callback st Hcn)
      as (_ & _ & Hn & _).
    unfold unused. rewrite Hcb, Htm, Hvar, Hdel, Hid, Hn. split.
    + intros k Hk. destruct (Hf k) as (?&?&?); [lia|].
      rewrite !lookup_insert_ne by lia. done.
    + intros id Hle Hlt. unfold js_succ in Hle, Hlt.
      destruct (N.ltb_spec (last_msg_id st) (2 ^ 53)); [|lia].
      rewrite lookup_insert_ne by lia. apply Hi; lia.
  - rewrite (apiTree_not_connected _ _ _ _ _ _ Hcn). split; [exact Hf|].
    cbn. intros id Hle Hlt. unfold js_succ in Hle, Hlt.
    destruct (N.ltb_spec (last_msg_id st) (2 ^ 53)); [|lia]. apply Hi; lia.
Qed.

Lemma unused_step rt st i st' t :
  unused st → step rt st i = Some (st', t) → unused st'.
Proof.
  apply step_preserves.
  - intros s f. by apply unused_shrink.
  - intros s b. by apply unused_shrink.
  - intros s n. by apply unused_shrink.
  - intros. by apply unused_apiTree.
  - intros. by apply unused_handle_error.
  - intros s h d c H _. revert H. apply unused_shrink; try done.
    intros k. cbn. apply delete_None.
  - intros s k c H _. apply unused_stop_timer. revert H.
    apply unused_shrink; try done. intros k'. cbn. apply delete_None.
  - intros s k c err H _. apply unused_handle_error. revert H.
    apply unused_shrink; try done. intros k'. cbn. apply delete_None.
  - intros s id c H _.
    apply (unused_shrink (stop_timer c (set_callbacks (delete id) s)));
      try done.
    apply unused_stop_timer. revert H.
    apply unused_shrink; try done. intros k'. cbn. apply delete_None.
Qed.

Lemma unused_run rt inputs st t :
  run rt init_state inputs = Some (st, t) → unused st.
Proof.
  revert st t. generalize unused_init. generalize init_state.
  induction inputs as [|i rest IH]; intros s Hs st t Hrun.
  - cbn in Hrun. by injection Hrun as <- _.
  - apply run_cons in Hrun as (st1 & t1 & t2 & H1 & Hr & _).
    eapply IH; [|exact Hr]. by eapply unused_step.
Qed.

(** In every state the module reaches while the counter is below [2 ^ 53]:
    a call issued while connected, acknowledged and then answered with the
    client's version calls the callback once with the [err] and [result] of
    the response, and leaves the module in the state it was in before the
    call, but for the identifier counter (and the count of activations):
    no registry entry, timer, [timeout] value, deliverable or listener of
    the call remains. *)
Theorem call_leaves_nothing_behind rt inputs st t name params options callback msg :
  run rt init_state inputs = Some (st, t) →
  connected st = true →
  last_msg_id st < 2 ^ 53 →
  msg_version msg = version rt →
  run rt st [InApiTree name params options callback;
             InPublishDone (next_frame st);
             InMessage (last_msg_id st) msg]
  = Some (set_next_frame (S (next_frame st))
            (set_last_msg_id (last_msg_id st + 1) st),
          [Published (req_channel rt)
             {| env_id := last_msg_id st;
                env_msg := {| req_version := version rt; req_method := name;
                              req_params := params |} |}]
          ++ invoke (normalize options callback).2
               [msg_err msg; msg_result msg]).
Proof.
  intros Hrun Hc Hlt Hv.
  destruct (unused_run _ _ _ _ Hrun) as [Hf Hi].
  destruct (entries_ok_run _ _ _ _ Hrun) as (He & _).
  destruct (Hf (next_frame st)) as (Ht & Hvar & Hd); [lia|].
  rewrite <- (js_succ_exact _ Hlt).
  apply round_trip_local; try done.
  - apply Hi; [lia | done].
  - intros c Hin. apply He in Hin. lia.
Qed.

Lemma call_leaves_nothing_behind_witness :
  ∃ st t,
    run rtA init_state [echo_call; InTransportUp] = Some (st, t) ∧
    run rtA st [echo_call; InPublishDone 0;
                InMessage 1 {| msg_version := "A"; msg_err := VNull;
                               msg_result := VStr "pong" |}]
    = Some (set_next_frame 1 (set_last_msg_id 2 st),
            [Published "/x/api3-req/c1"
               {| env_id := 1;
                  env_msg := {| req_version := "A"; req_method := "echo";
                                req_params := VObj [("x", VNum 1)] |} |};
             Called 7 [VNull; VStr "pong"]]).
Proof.
  eexists _, _. split; [vm_compute; reflexivity|].
  refine (call_leaves_nothing_behind rtA [echo_call; InTransportUp] _ _
            "echo" (VObj [("x", VNum 1)]) VUndefined (Some (FUser 7))
            {| msg_version := "A"; msg_err := VNull; msg_result := VStr "pong" |}
            _ _ _ _); vm_compute; reflexivity.
Defined.

(** ** Settlement by timeout and by rejection *)

(** A timeout is final for the registry and the timer: once the timer of a
    call has run, a response that arrives for the call's identifier is
    discarded without calling anything, and the timer does not run a second
    time however long the wait. *)
Theorem timeout_then_late_response rt st handle deadline c :
  timers st !! handle = Some (deadline, c) →
  deadline ≤ now st →
  ∃ st',
    step rt st (InTimeout handle)
      = Some (st', invoke (cl_callback c)
                     [VErr ("Timeout " +:+ cl_name c +:+ " execution.")
                        (VStr "IO_ETIMEOUT")]) ∧
    (∀ msg, step rt st' (InMessage (cl_id c) msg) = Some (st', [])) ∧
    (∀ ms, step rt (set_now (now st' + ms) st') (InTimeout handle) = None).
Proof.
  intros Ht Hd.
  destruct (timeout_fires rt st handle deadline c Ht Hd) as (st' & Hs & Htm & Hcb).
  exists st'. split; [exact Hs|]. split.
  - intros msg. cbn [step]. unfold dispatch. rewrite Hcb. reflexivity.
  - intros ms. cbn [step timers set_now]. rewrite Htm. reflexivity.
Qed.

Lemma timeout_then_late_response_witness :
  ∃ st',
    step rtA (set_now 30000
                (apiTree rtA "echo" VNull VUndefined (Some (FUser 7))
                   (run_listener TrackUp init_state).1).1) (InTimeout 0)
      = Some (st', [Called 7 [VErr "Timeout echo execution."
                                (VStr "IO_ETIMEOUT")]]) ∧
    (∀ msg, step rtA st' (InMessage 0 msg) = Some (st', [])) ∧
    (∀ ms, step rtA (set_now (now st' + ms) st') (InTimeout 0) = None).
Proof.
  refine (timeout_then_late_response rtA
            (set_now 30000
               (apiTree rtA "echo" VNull VUndefined (Some (FUser 7))
                  (run_listener TrackUp init_state).1).1)
            0 30000
            {| cl_frame := 0; cl_id := 0; cl_name := "echo";
               cl_callback := FUser 7 |} _ _).
  - vm_compute. reflexivity.
  - vm_compute. discriminate.
Defined.

(** In every state the module reaches, the rejection of a publish settles
    the call with the transport's error, passed to the callback as it is:
    the registry entry of the call's identifier and the call's timer are
    gone, the same publish cannot be acknowledged or rejected again, and a
    response that still arrives is discarded. *)
Theorem publish_rejection_settles rt inputs st t k c err :
  run rt init_state inputs = Some (st, t) →
  deliverables st !! k = Some c →
  ∃ st',
    step rt st (InPublishFail k err) = Some (st', invoke (cl_callback c) [err]) ∧
    callbacks st' !! cl_id c = None ∧
    timers st' !! k = None ∧
    step rt st' (InPublishDone k) = None ∧
    (∀ err', step rt st' (InPublishFail k err') = None) ∧
    (∀ msg, step rt st' (InMessage (cl_id c) msg) = Some (st', [])).
Proof.
  intros Hrun Hk. destruct (timers_ok_run _ _ _ _ Hrun) as (Ha & Hb & Hc).
  pose proof (Hc _ _ Hk) as Hf.
  exists (handle_error c err (set_deliverables (delete k) st)).1.
  assert (Hcb : callbacks (handle_error c err (set_deliverables (delete k) st)).1
                !! cl_id c = None).
  { rewrite handle_error_callbacks. apply lookup_delete_eq. }
  assert (Hdel : deliverables (handle_error c err (set_deliverables (delete k) st)).1
                 !! k = None).
  { rewrite (proj1 (proj2 (proj2 (proj2 (proj2 (proj2 (proj2
               (handle_error_frame _ _ _)))))))). cbn. apply lookup_delete_eq. }
  split; [|split; [exact Hcb | split; [|split; [|split]]]].
  - cbn [step]. rewrite Hk. reflexivity.
  - unfold handle_error. cbn -[stop_timer].
    destruct (stop_timer_fields c (set_deliverables (delete k) st)) as [_ ->].
    cbn. rewrite Hf.
    destruct (timeout_var st !! k) as [h|] eqn:Hv.
    + apply Ha in Hv as ->. apply lookup_delete_eq.
    + destruct (timers st !! k) as [[d c']|] eqn:Ht; [|done].
      apply Hb in Ht as [Ht _]. congruence.
  - cbn [step]. rewrite Hdel. reflexivity.
  - intros err'. cbn [step]. rewrite Hdel. reflexivity.
  - intros msg. cbn [step]. unfold dispatch. rewrite Hcb. reflexivity.
Qed.

Lemma publish_rejection_settles_witness :
  ∃ st t st',
    run rtA init_state [InTransportUp; echo_call] = Some (st, t) ∧
    step rtA st (InPublishFail 0 (VStr "rejected"))
      = Some (st', [Called 7 [VStr "rejected"]]) ∧
    callbacks st' !! 0 = None ∧ timers st' !! 0%nat = None.
Proof.
  destruct (run rtA init_state [InTransportUp; echo_call]) as [[st t]|] eqn:Hrun;
    [|vm_compute in Hrun; discriminate].
  destruct (publish_rejection_settles rtA _ st t 0 echo_closure
              (VStr "rejected") Hrun)
    as (st' & Hs & Hcb & Ht & _).
  - vm_compute in Hrun. injection Hrun as <- <-. reflexivity.
  - exists st, t, st'. split; [reflexivity|].
    split; [exact Hs | split; [exact Hcb | exact Ht]].
Defined.

(** ** Arguments and correlation *)

(** [options] is accepted and not looked at: two calls that differ only in
    an [options] that is not a function do the same. *)
Theorem options_ignored rt name params options options' callback st :
  isFunction options = false →
  isFunction options' = false →
  apiTree rt name params options callback st
  = apiTree rt name params options' callback st.
Proof.
  intros H H'. unfold apiTree.
  assert (Hn : ∀ o, isFunction o = false →
                    (normalize o callback).2 = default FNoop callback).
  { intros o Ho. by destruct o. }
  pose proof (Hn _ H) as H1. pose proof (Hn _ H') as H2.
  destruct (normalize options callback) as [o1 cb1].
  destruct (normalize options' callback) as [o2 cb2].
  cbn in H1, H2. subst. reflexivity.
Qed.

Lemma options_ignored_witness :
  apiTree rtA "echo" VNull (VObj [("retry", VNum 3)]) (Some (FUser 7)) init_state
  = apiTree rtA "echo" VNull VUndefined (Some (FUser 7)) init_state.
Proof.
  exact (options_ignored rtA "echo" VNull (VObj [("retry", VNum 3)]) VUndefined
           (Some (FUser 7)) init_state eq_refl eq_refl).
Defined.

(** Responses are matched to calls by identifier, not by order: of two
    calls issued one after the other while connected (counter below
    [2 ^ 53]), a response carrying the second identifier calls the second
    caller's callback, and the first call stays pending until its own
    response arrives, which then calls the first caller's callback. *)
Theorem responses_correlate rt st name1 params1 options1 callback1
    name2 params2 options2 callback2 msg msg' :
  connected st = true →
  last_msg_id st < 2 ^ 53 →
  msg_version msg = version rt →
  msg_version msg' = version rt →
  ∃ st' pub1 pub2,
    run rt st [InApiTree name1 params1 options1 callback1;
               InApiTree name2 params2 options2 callback2;
               InMessage (last_msg_id st + 1) msg]
    = Some (st', [pub1; pub2]
                 ++ invoke (normalize options2 callback2).2
                      [msg_err msg; msg_result msg]) ∧
    published_ids [pub1; pub2] = [last_msg_id st; last_msg_id st + 1] ∧
    callbacks st' !! (last_msg_id st + 1) = None ∧
    is_Some (callbacks st' !! last_msg_id st) ∧
    ∃ st'', step rt st' (InMessage (last_msg_id st) msg')
            = Some (st'', invoke (normalize options1 callback1).2
                            [msg_err msg'; msg_result msg']).
Proof.
  intros Hc Hlt Hv Hv'.
  destruct (apiTree_connected rt name1 params1 options1 callback1 st Hc)
    as (Ht1 & Hcb1 & _ & _ & _ & _ & _ & Hid1).
  destruct (apiTree_connected_rest rt name1 params1 options1 callback1 st Hc)
    as (_ & Hc1 & _ & _).
  rewrite js_succ_exact in Hid1 by done.
  remember (apiTree rt name1 params1 options1 callback1 st).1 as st1 eqn:E1.
  destruct (apiTree_connected rt name2 params2 options2 callback2 st1 Hc1)
    as (Ht2 & Hcb2 & _ & _ & _ & _ & _ & _).
  rewrite Hid1 in Ht2, Hcb2. rewrite Hcb1 in Hcb2.
  remember (apiTree rt name2 params2 options2 callback2 st1).1 as st2 eqn:E2.
  set (c1 := {| cl_frame := next_frame st; cl_id := last_msg_id st;
                cl_name := name1;
                cl_callback := (normalize options1 callback1).2 |}) in *.
  set (c2 := {| cl_frame := next_frame st1; cl_id := last_msg_id st + 1;
                cl_name := name2;
                cl_callback := (normalize options2 callback2).2 |}) in *.
  set (st3 := unbind_down (HandleTransportDown c2)
                (stop_timer c2
                   (set_callbacks (delete (last_msg_id st + 1)) st2))).
  assert (Hne : last_msg_id st + 1 ≠ last_msg_id st) by lia.
  assert (Hcb3 : callbacks st3 = delete (last_msg_id st + 1) (callbacks st2)).
  { unfold st3. cbn -[stop_timer].
    by destruct (stop_timer_frame c2
                   (set_callbacks (delete (last_msg_id st + 1)) st2))
      as (_&_&->&_). }
  assert (H1 : callbacks st3 !! last_msg_id st = Some c1).
  { rewrite Hcb3, Hcb2, lookup_delete_ne, lookup_insert_ne by done.
    apply lookup_insert_eq. }
  eexists st3, _, _. split; [|split; [|split; [|split]]].
  - cbn [run]. rewrite step_apiTree, <- E1, Ht1. cbn [mbind option_bind].
    rewrite step_apiTree, <- E2, Ht2. cbn [mbind option_bind].
    cbn [step]. unfold dispatch. rewrite Hcb2, lookup_insert_eq.
    rewrite response_handler_match by done. cbn -[invoke stop_timer].
    rewrite app_nil_r. reflexivity.
  - reflexivity.
  - rewrite Hcb3. apply lookup_delete_eq.
  - rewrite H1. by eexists.
  - eexists. cbn [step]. unfold dispatch. rewrite H1.
    rewrite response_handler_match by done. reflexivity.
Qed.

Lemma responses_correlate_witness :
  ∃ st' pub1 pub2,
    run rtA (run_listener TrackUp init_state).1
      [echo_call; InApiTree "time" VNull (VFun (FUser 8)) None;
       InMessage 1 {| msg_version := "A"; msg_err := VNull;
                      msg_result := VNum 12 |}]
    = Some (st', [pub1; pub2; Called 8 [VNull; VNum 12]]) ∧
    callbacks st' !! 1 = None ∧ is_Some (callbacks st' !! 0).
Proof.
  destruct (responses_correlate rtA (run_listener TrackUp init_state).1
              "echo" (VObj [("x", VNum 1)]) VUndefined (Some (FUser 7))
              "time" VNull (VFun (FUser 8)) None
              {| msg_version := "A"; msg_err := VNull; msg_result := VNum 12 |}
              {| msg_version := "A"; msg_err := VNull; msg_result := VNum 12 |}
              eq_refl eq_refl eq_refl eq_refl)
    as (st' & pub1 & pub2 & Hr & _ & H1 & H0 & _).
  exists st', pub1, pub2. split; [exact Hr | split; [exact H1 | exact H0]].
Defined.

(** A call issued while connected and answered with another version than
    the client's: every handler registered for the version-mismatch
    notification is called first, in registration order, then the callback
    with the EWRONGVER error alone; neither [err] nor [result] of the
    response is passed on.  The call is cleaned up as after any response: no
    registry entry, timer not armed, listener not bound. *)
Theorem mismatch_settles rt name params options callback st msg :
  connected st = true →
  msg_version msg ≠ version rt →
  ∃ st',
    run rt st [InApiTree name params options callback;
               InMessage (last_msg_id st) msg]
    = Some (st',
            [Published (req_channel rt)
               {| env_id := last_msg_id st;
                  env_msg := {| req_version := version rt; req_method := name;
                                req_params := params |} |}]
            ++ (handlers_of (events st) "api3:version-mismatch"
                  ≫= λ h, invoke h [])
            ++ invoke (normalize options callback).2
                 [VErr "Client version does not match server."
                    (VStr "IO_EWRONGVER")]) ∧
    callbacks st' !! last_msg_id st = None ∧
    timers st' !! next_frame st = None ∧
    ∀ c, HandleTransportDown c ∈ down_listeners st' → cl_frame c ≠ next_frame st.
Proof.
  intros Hc Hv.
  destruct (apiTree_connected rt name params options callback st Hc)
    as (Ht & Hcb & Htm & Hvar & Hdel & Hdown & Hnow & Hid).
  destruct (apiTree_connected_rest rt name params options callback st Hc)
    as (Hev & _).
  set (st1 := (apiTree rt name params options callback st).1) in *.
  set (c := {| cl_frame := next_frame st; cl_id := last_msg_id st;
               cl_name := name; cl_callback := (normalize options callback).2 |})
    in *.
  eexists. split; [|split; [|split]].
  - eapply run_two; [rewrite step_apiTree, Ht; reflexivity|].
    fold st1. cbn [step]. unfold dispatch.
    rewrite Hcb, lookup_insert_eq. rewrite response_handler_mismatch by done.
    cbn [events set_callbacks]. rewrite Hev. reflexivity.
  - cbn -[stop_timer]. rewrite (proj1 (proj2 (proj2 (stop_timer_frame _ _)))).
    cbn. apply lookup_delete_eq.
  - cbn -[stop_timer]. erewrite stop_timer_timers; [apply lookup_delete_eq|].
    cbn. rewrite Hvar. apply lookup_insert_eq.
  - intros c' Hin Hf. cbn -[stop_timer] in Hin.
    apply list_elem_of_filter in Hin as [Hs _]. cbn in Hs.
    rewrite Hf, Nat.eqb_refl in Hs. discriminate.
Qed.

Lemma mismatch_settles_witness :
  ∃ st',
    run rtA (after_on "api3:version-mismatch" (FUser 3)
               (run_listener TrackUp init_state).1)
      [echo_call;
       InMessage 0 {| msg_version := "B"; msg_err := VNull;
                      msg_result := VObj [("x", VNum 1)] |}]
    = Some (st', [echo_published; Called 3 [];
                  Called 7 [VErr "Client version does not match server."
                              (VStr "IO_EWRONGVER")]]) ∧
    callbacks st' !! 0 = None ∧ timers st' !! 0%nat = None.
Proof.
  destruct (mismatch_settles rtA "echo" (VObj [("x", VNum 1)]) VUndefined
              (Some (FUser 7))
              (after_on "api3:version-mismatch" (FUser 3)
                 (run_listener TrackUp init_state).1)
              {| msg_version := "B"; msg_err := VNull;
                 msg_result := VObj [("x", VNum 1)] |} eq_refl)
    as (st' & Hr & Hcb & Ht & _).
  - discriminate.
  - exists st'. split; [exact Hr | split; [exact Hcb | exact Ht]].
Defined.

(** ** What is sent *)

Lemma run_sent rt inputs : ∀ st st' t,
  tracked st →
  run rt st inputs = Some (st', t) →
  last_msg_id st + N.of_nat (count_calls inputs) ≤ 2 ^ 53 →
  published_ids t = sent_ids (connected st) (last_msg_id st) inputs.
Proof.
  induction inputs as [|i rest IH]; intros st st' t Htr Hrun Hb.
  - cbn in Hrun. by injection Hrun as _ <-.
  - apply run_cons in Hrun as (st1 & t1 & t2 & Hs & Hr & ->).
    destruct (step_flag _ _ _ _ _ Htr Hs) as [Htr1 Hc1].
    pose proof (step_ids _ _ _ _ _ Hs) as Hid.
    rewrite published_ids_app.
    destruct i; cbn [count_calls] in Hb; destruct Hid as [Hl Hp];
      try (rewrite Hp, (IH _ _ _ Htr1 Hr), Hc1, Hl by (rewrite Hl; lia);
           reflexivity).
    rewrite js_succ_exact in Hl by lia.
    rewrite Hp, (IH _ _ _ Htr1 Hr), Hc1, Hl by (rewrite Hl; lia).
    reflexivity.
Qed.

(** Requests are sent for the calls issued while the link is up and for no
    others, each under the number of its call: over any run of the module
    (of at most [2 ^ 53] calls), the identifiers published are those of the
    calls that came after a link-up signal with no link-down signal in
    between, counted from 0 over all calls.  A call issued while the link
    is down is not sent later. *)
Theorem sent_exactly_while_connected rt inputs st t :
  run rt init_state inputs = Some (st, t) →
  N.of_nat (count_calls inputs) ≤ 2 ^ 53 →
  published_ids t = sent_ids false 0 inputs.
Proof.
  intros Hrun Hb.
  apply (run_sent rt inputs init_state st t tracked_init Hrun). cbn. lia.
Qed.

Lemma sent_exactly_while_connected_witness :
  ∃ st t,
    run rtA init_state
      [echo_call; InTransportUp; echo_call; InTransportDown; echo_call;
       InTransportUp; echo_call] = Some (st, t) ∧
    published_ids t = [1; 3].
Proof.
  eexists _, _. split; [vm_compute; reflexivity|].
  refine (sent_exactly_while_connected rtA
            [echo_call; InTransportUp; echo_call; InTransportDown; echo_call;
             InTransportUp; echo_call] _ _ _ _).
  - vm_compute. reflexivity.
  - vm_compute. discriminate.
Defined.

(** ** The registry and the link signal on concrete states *)

Lemma emit_array_witness :
  emit init_state "api3:version-mismatch" (VArr [VStr "A"; VStr "B"]) = Some [].
Proof.
  refine (proj2 (emit_array init_state "api3:version-mismatch"
                   [VStr "A"; VStr "B"]) _).
  vm_compute. reflexivity.
Defined.


Lemma off_all_witness :
  emit (off "api3:version-mismatch" None
          (after_on "other" (FUser 3) init_state)) "other" (VArr [VNum 1])
  = emit (after_on "other" (FUser 3) init_state) "other" (VArr [VNum 1]).
Proof.
  refine (proj2 (off_all (after_on "other" (FUser 3) init_state)
                   "api3:version-mismatch") "other" (VArr [VNum 1]) _).
  discriminate.
Defined.

Lemma off_handler_witness :
  Called 3 [VNum 1] ∉
    [Called 4 [VNum 1]].
Proof.
  refine (proj2 (off_handler
                   (after_on "e" (FUser 3)
                      (after_on "e" (FUser 4) (after_on "e" (FUser 3) init_state)))
                   "e" 3 [VNum 1]) [Called 4 [VNum 1]] [VNum 1] _).
  vm_compute. reflexivity.
Defined.

Lemma link_down_notifies_witness :
  ∃ st t st',
    run rtA init_state [InTransportUp; echo_call; InElapse 30000; InTimeout 0]
      = Some (st, t) ∧
    step rtA st InTransportDown = Some (st', [Called 7 [server_gone]]) ∧
    callbacks st' !! 0 = None.
Proof.
  destruct (run rtA init_state
              [InTransportUp; echo_call; InElapse 30000; InTimeout 0])
    as [[st t]|] eqn:Hrun; [|vm_compute in Hrun; discriminate].
  destruct (link_down_notifies rtA st) as (st' & Hs & _ & Hgone).
  exists st, t, st'. split; [reflexivity|].
  vm_compute in Hrun. injection Hrun as <- <-.
  split; [exact Hs|].
  refine (proj1 (Hgone echo_closure _)).
  apply list_elem_of_further, list_elem_of_here.
Defined.

(** ** The counter at [2 ^ 53] *)

Lemma run_app rt l1 : ∀ l2 st st1 t1 st2 t2,
  run rt st l1 = Some (st1, t1) →
  run rt st1 l2 = Some (st2, t2) →
  run rt st (l1 ++ l2) = Some (st2, t1 ++ t2).
Proof.
  induction l1 as [|i l1 IH]; intros l2 st st1 t1 st2 t2 H1 H2.
  - cbn in H1. injection H1 as <- <-. exact H2.
  - apply run_cons in H1 as (sa & ta & tb & Hs & Hr & ->).
    cbn [app run]. rewrite Hs. cbn [mbind option_bind].
    rewrite (IH _ _ _ _ _ _ Hr H2). cbn. by rewrite app_assoc.
Qed.

(** Calls issued with no callback while the link is down do nothing but
    move the counter. *)
Lemma run_idle_calls rt n : ∀ st,
  connected st = false →
  run rt st (replicate n (InApiTree "m" VNull VUndefined None))
  = Some (set_last_msg_id (Nat.iter n js_succ (last_msg_id st)) st, []).
Proof.
  induction n as [|n IH]; intros st Hc.
  - cbn. by destruct st.
  - rewrite Nat.iter_succ_r. cbn [replicate run step].
    rewrite (apiTree_not_connected _ _ _ _ _ _ Hc). cbn [mbind option_bind].
    rewrite IH by exact Hc. reflexivity.
Qed.

Lemma iter_js_succ n : Nat.iter n js_succ 0 = N.min (N.of_nat n) (2 ^ 53).
Proof.
  induction n as [|n IH]; [reflexivity|].
  rewrite Nat.iter_succ, IH. unfold js_succ.
  destruct (N.ltb_spec (N.min (N.of_nat n) (2 ^ 53)) (2 ^ 53)); lia.
Qed.

(** C7, as stated, fails: the module can reach a state in which the counter
    holds [2 ^ 53], and two calls issued there while connected are both sent
    under the identifier [2 ^ 53]; the identifiers of a run are then not
    distinct. *)
Lemma C7_identifier_reused_counterexample :
  ¬ (∀ inputs st t,
       run rtA init_state inputs = Some (st, t) → NoDup (published_ids t)).
Proof.
  intros H.
  pose proof (run_idle_calls rtA (N.to_nat (2 ^ 53)) init_state eq_refl) as H1.
  change (last_msg_id init_state) with 0 in H1.
  rewrite iter_js_succ, N2Nat.id, N.min_id in H1.
  assert (H2 : ∃ st,
    run rtA (set_last_msg_id (2 ^ 53) init_state)
      [InTransportUp; echo_call; echo_call]
    = Some (st, [Published "/x/api3-req/c1"
                   {| env_id := 2 ^ 53;
                      env_msg := {| req_version := "A"; req_method := "echo";
                                    req_params := VObj [("x", VNum 1)] |} |};
                 Published "/x/api3-req/c1"
                   {| env_id := 2 ^ 53;
                      env_msg := {| req_version := "A"; req_method := "echo";
                                    req_params := VObj [("x", VNum 1)] |} |}])).
  { eexists. vm_compute. reflexivity. }
  destruct H2 as [st H2].
  pose proof (run_app _ _ _ _ _ _ _ _ H1 H2) as H3.
  apply H in H3. cbn [app published_ids omap] in H3.
  apply NoDup_cons in H3 as [Hin _]. apply Hin. cbn. apply list_elem_of_here.
Qed.

(** ** Optional arguments *)

(** C10: a function in third position is the callback, whatever stands in
    fourth position, and [options] becomes the empty object: it is this
    function that the call calls with the ENOCONN error when there is no
    connection, and that the response to the request calls with [err] and
    [result] when there is.  A callback left out (with [options] no function)
    is the no-op: nothing is called, neither by the call without connection
    nor by the response, and the call is in every other respect the call
    with an explicit no-op: it takes its identifier and, when connected,
    publishes its request. *)
Theorem C10_argument_defaults rt name params st err result :
  let msg := {| msg_version := version rt; msg_err := err;
                msg_result := result |} in
  let pub := Published (req_channel rt)
               {| env_id := last_msg_id st;
                  env_msg := {| req_version := version rt; req_method := name;
                                req_params := params |} |} in
  (∀ f callback,
     normalize (VFun f) callback = (VObj [], f) ∧
     apiTree rt name params (VFun f) callback st
       = apiTree rt name params (VObj []) (Some f) st ∧
     if connected st
     then ∃ st', run rt st [InApiTree name params (VFun f) callback;
                            InMessage (last_msg_id st) msg]
                 = Some (st', [pub] ++ invoke f [err; result])
     else apiTree rt name params (VFun f) callback st
          = (set_last_msg_id (js_succ (last_msg_id st)) st,
             invoke f [VErr "Cannot connect to server (RT)."
                         (VStr "IO_ENOCONN")])) ∧
  (∀ options,
     isFunction options = false →
     (normalize options None).2 = FNoop ∧
     apiTree rt name params options None st
       = apiTree rt name params options (Some FNoop) st ∧
     if connected st
     then ∃ st', run rt st [InApiTree name params options None;
                            InMessage (last_msg_id st) msg]
                 = Some (st', [pub])
     else apiTree rt name params options None st
          = (set_last_msg_id (js_succ (last_msg_id st)) st, [])) ∧
  (∀ args, invoke FNoop args = []).
Proof.
  intros msg pub. split; [|split; [|reflexivity]].
  - intros f callback. split; [reflexivity | split; [reflexivity|]].
    destruct (connected st) eqn:Hc.
    + destruct (call_then_response rt name params (VFun f) callback st msg Hc
                  eq_refl) as (st' & Hr & _).
      exists st'. exact Hr.
    + exact (apiTree_not_connected rt name params (VFun f) callback st Hc).
  - intros options Hf.
    assert (Hn : (normalize options None).2 = FNoop)
      by (by destruct options).
    split; [exact Hn | split; [by destruct options|]].
    destruct (connected st) eqn:Hc.
    + destruct (call_then_response rt name params options None st msg Hc
                  eq_refl) as (st' & Hr & _).
      rewrite Hn in Hr. exists st'. exact Hr.
    + rewrite (apiTree_not_connected rt name params options None st Hc), Hn.
      reflexivity.
Qed.

Lemma C10_argument_defaults_witness :
  (normalize (VObj [("k", VNum 1)]) None).2 = FNoop ∧
  apiTree rtA "echo" VNull (VObj [("k", VNum 1)]) None init_state
    = apiTree rtA "echo" VNull (VObj [("k", VNum 1)]) (Some FNoop) init_state ∧
  apiTree rtA "echo" VNull (VObj [("k", VNum 1)]) None init_state
    = (set_last_msg_id 1 init_state, []).
Proof.
  exact (proj1 (proj2 (C10_argument_defaults rtA "echo" VNull init_state
                         VNull VNull))
           (VObj [("k", VNum 1)]) eq_refl).
Defined.

(** The same call with the callback in third position: without a
    connection it is called at once, with a connection by the response. *)
Example third_argument_is_called :
  apiTree rtA "echo" VNull (VFun (FUser 9)) (Some (FUser 7)) init_state
    = (set_last_msg_id 1 init_state,
       [Called 9 [VErr "Cannot connect to server (RT)." (VStr "IO_ENOCONN")]]) ∧
  snd <$> run rtA init_state
            [InTransportUp;
             InApiTree "echo" (VObj [("x", VNum 1)]) (VFun (FUser 9))
               (Some (FUser 7));
             InMessage 0 {| msg_version := "A"; msg_err := VNull;
                            msg_result := VStr "pong" |}]
    = Some [echo_published; Called 9 [VNull; VStr "pong"]].
Proof. split; [reflexivity | vm_compute; reflexivity]. Qed.
